(** * promise-keeper: the cache cell of [src/index.ts] and its event loop

    A shallow embedding of class [PromiseKeeper] (src/index.ts).  The cell is
    a record with the fields of the class; its methods are written in a small
    state-and-exception monad over a [world] that also holds what the methods
    touch outside the cell: the promises handed out by the producer with
    their [finally] reactions, the promise job queue, the [process.nextTick]
    queue and the interval timers. *)

From Stdlib Require Import ZArith List Bool String Floats.
From stdpp Require Import base option list gmap.


(** ** Values, promises, timers *)

Definition promise_id := nat.
Definition timer_id := nat.

(** What a field of the cell, or the producer's return value, can hold.
    [Undefined] is also what reading a deleted field gives; [Plain] stands
    for any other value without a [finally] (or with one that is null or
    undefined); [Thenable p] is the promise [p]; [Uncallable] stands for a
    value whose [finally] is there but is not a function, such as
    [{finally: 5}]: [typeof x.finally === 'function'] is false for it, and
    [x.finally?.(f)] throws. *)
Inductive value :=
| Undefined
| Plain (z : Z)
| Thenable (p : promise_id)
| Uncallable (z : Z).

(** [new Error(msg)], and the [TypeError] of a call of what is not a
    function. *)
Inductive error :=
| Error (msg : string)
| TypeError.

(** How a promise completes. [settle] and [clear] are registered with
    [finally], so both ways fire them. *)
Inductive completion :=
| Fulfilled (v : Z)
| Rejected (reason : Z).

(** The two callbacks the class registers with [finally]:
    [this.settle.bind(this)] (in [invoke]) and [this.clear.bind(this)]
    (in [purge]). *)
Inductive reaction := Settle | Clear.

(** A promise: [status = None] while it is pending, and the reactions
    registered on it while it is pending, oldest first. *)
Record promise := {
  status : option completion;
  reactions : list reaction }.

Definition fresh_promise : promise := {| status := None; reactions := [] |}.

(** One call of the producer [this.fn()]: it returns or it throws. *)
Inductive fn_result :=
| Returns (v : value)
| Throws (e : error).

(** ** The cell *)

(** The fields of [PromiseKeeper].  The producer [fn] is opaque and may have
    state of its own: [fn n] is what its call number [n] (from 0) does. *)
Record PromiseKeeper := {
  fn : nat -> fn_result;
  settledData : value;
  pendingData : value;
  isEmpty : bool;
  isPending : bool;
  freshTimer : option timer_id }.

(** [new PromiseKeeper(fn)]: [isEmpty = true], [isPending = false], the
    data fields and the timer not set. *)
Definition new_PromiseKeeper (f : nat -> fn_result) : PromiseKeeper :=
  {| fn := f; settledData := Undefined; pendingData := Undefined;
     isEmpty := true; isPending := false; freshTimer := None |}.

Definition set_settledData (v : value) (k : PromiseKeeper) : PromiseKeeper :=
  {| fn := fn k; settledData := v; pendingData := pendingData k;
     isEmpty := isEmpty k; isPending := isPending k;
     freshTimer := freshTimer k |}.

Definition set_pendingData (v : value) (k : PromiseKeeper) : PromiseKeeper :=
  {| fn := fn k; settledData := settledData k; pendingData := v;
     isEmpty := isEmpty k; isPending := isPending k;
     freshTimer := freshTimer k |}.

Definition set_isEmpty (b : bool) (k : PromiseKeeper) : PromiseKeeper :=
  {| fn := fn k; settledData := settledData k; pendingData := pendingData k;
     isEmpty := b; isPending := isPending k; freshTimer := freshTimer k |}.

Definition set_isPending (b : bool) (k : PromiseKeeper) : PromiseKeeper :=
  {| fn := fn k; settledData := settledData k; pendingData := pendingData k;
     isEmpty := isEmpty k; isPending := b; freshTimer := freshTimer k |}.

Definition set_freshTimer (t : option timer_id) (k : PromiseKeeper)
  : PromiseKeeper :=
  {| fn := fn k; settledData := settledData k; pendingData := pendingData k;
     isEmpty := isEmpty k; isPending := isPending k; freshTimer := t |}.

(** ** The world around the cell *)

(** A warning given with [process.emitWarning]. *)
Inductive warning := InvalidDuration (timeout : float).

Record world := {
  kept : PromiseKeeper;
  (** how often the producer has been called *)
  calls : nat;
  (** the promises seen so far; one that is not in the map is pending and
      has no reaction *)
  promises : gmap promise_id promise;
  (** the promise job queue, oldest first; each job with the promise whose
      completion (or whose [finally] after completion) queued it *)
  microtasks : list (promise_id * reaction);
  (** how many [this.refresh.bind(this)] wait in the [process.nextTick]
      queue *)
  ticks : nat;
  (** the running interval timers with the interval they were given *)
  timers : gmap timer_id float;
  next_timer : timer_id;
  warnings : list warning }.

Definition set_kept (k : PromiseKeeper) (w : world) : world :=
  {| kept := k; calls := calls w; promises := promises w;
     microtasks := microtasks w; ticks := ticks w; timers := timers w;
     next_timer := next_timer w; warnings := warnings w |}.

Definition set_calls (n : nat) (w : world) : world :=
  {| kept := kept w; calls := n; promises := promises w;
     microtasks := microtasks w; ticks := ticks w; timers := timers w;
     next_timer := next_timer w; warnings := warnings w |}.

Definition set_promises (ps : gmap promise_id promise) (w : world) : world :=
  {| kept := kept w; calls := calls w; promises := ps;
     microtasks := microtasks w; ticks := ticks w; timers := timers w;
     next_timer := next_timer w; warnings := warnings w |}.

Definition set_microtasks (q : list (promise_id * reaction)) (w : world)
  : world :=
  {| kept := kept w; calls := calls w; promises := promises w;
     microtasks := q; ticks := ticks w; timers := timers w;
     next_timer := next_timer w; warnings := warnings w |}.

Definition set_ticks (n : nat) (w : world) : world :=
  {| kept := kept w; calls := calls w; promises := promises w;
     microtasks := microtasks w; ticks := n; timers := timers w;
     next_timer := next_timer w; warnings := warnings w |}.

Definition set_timers (ts : gmap timer_id float) (nx : timer_id) (w : world)
  : world :=
  {| kept := kept w; calls := calls w; promises := promises w;
     microtasks := microtasks w; ticks := ticks w; timers := ts;
     next_timer := nx; warnings := warnings w |}.

Definition set_warnings (ws : list warning) (w : world) : world :=
  {| kept := kept w; calls := calls w; promises := promises w;
     microtasks := microtasks w; ticks := ticks w; timers := timers w;
     next_timer := next_timer w; warnings := ws |}.

(** The world right after [new PromiseKeeper(fn)]. *)
Definition init (f : nat -> fn_result) : world :=
  {| kept := new_PromiseKeeper f; calls := 0%nat; promises := ∅;
     microtasks := []; ticks := 0%nat; timers := ∅; next_timer := 0%nat;
     warnings := [] |}.

(** ** The monad of the methods: state, and exceptions that keep the state *)

Inductive outcome (A : Type) :=
| Ret (a : A)
| Thrown (e : error).
Arguments Ret {A} a.
Arguments Thrown {A} e.

Definition M (A : Type) : Type := world -> outcome A * world.

Definition ret {A} (a : A) : M A := fun w => (Ret a, w).

Definition throw {A} (e : error) : M A := fun w => (Thrown e, w).

Definition bind {A B} (m : M A) (k : A -> M B) : M B := fun w =>
  match m w with
  | (Ret a, w') => k a w'
  | (Thrown e, w') => (Thrown e, w')
  end.

Declare Scope js_scope.
Delimit Scope js_scope with js.
Notation "x <- m ;; k" := (bind m (fun x => k))
  (at level 100, m at next level, right associativity) : js_scope.
Notation "m ;; k" := (bind m (fun _ => k))
  (at level 100, right associativity) : js_scope.
Local Open Scope js_scope.

(** [this.f] *)
Definition this {A} (f : PromiseKeeper -> A) : M A :=
  fun w => (Ret (f (kept w)), w).

(** [this.f = v], through the setter of [f] *)
Definition assign (upd : PromiseKeeper -> PromiseKeeper) : M unit :=
  fun w => (Ret tt, set_kept (upd (kept w)) w).

(** ** Promises and timers, as the methods use them *)

Definition get_promise (w : world) (p : promise_id) : promise :=
  default fresh_promise (promises w !! p).

(** [p.finally(r)]: on a pending promise the reaction is registered; on a
    completed one it is queued as a job at once.  The promise [finally]
    returns is dropped by every caller in the class. *)
Definition promise_finally (p : promise_id) (r : reaction) : M unit :=
  fun w =>
    let pr := get_promise w p in
    match status pr with
    | None =>
        (Ret tt,
         set_promises
           (<[p := {| status := None; reactions := reactions pr ++ [r] |}]>
              (promises w)) w)
    | Some _ => (Ret tt, set_microtasks (microtasks w ++ [(p, r)]) w)
    end.

(** [this.fn()] *)
Definition call_fn : M value := fun w =>
  let w' := set_calls (S (calls w)) w in
  match fn (kept w) (calls w) with
  | Returns v => (Ret v, w')
  | Throws e => (Thrown e, w')
  end.

(** [setInterval(cb, interval)], where [cb] is always the arrow function
    of [keepFresh]. *)
Definition setInterval (interval : float) : M timer_id := fun w =>
  (Ret (next_timer w),
   set_timers (<[next_timer w := interval]> (timers w)) (S (next_timer w)) w).

(** [clearTimeout(t)] *)
Definition clearTimeout (t : timer_id) : M unit := fun w =>
  (Ret tt, set_timers (delete t (timers w)) (next_timer w) w).

(** ** The methods of [PromiseKeeper]

    A method that ends in [return this] is an [M unit] here. *)

(** [private settle()] *)
Definition settle : M unit :=
  pending <- this isPending ;;
  if pending : bool then
    data <- this pendingData ;;
    assign (set_settledData data) ;;
    assign (set_isEmpty false) ;;
    assign (set_isPending false)
  else ret tt.

(** [private invoke()] *)
Definition invoke : M unit :=
  assign (set_isPending true) ;;
  data <- call_fn ;;
  assign (set_pendingData data) ;;
  match data with
  | Thenable p => promise_finally p Settle
  | _ => settle
  end.

(** [private clear()] *)
Definition clear : M unit :=
  assign (set_settledData Undefined) ;;
  assign (set_pendingData Undefined) ;;
  assign (set_isEmpty true) ;;
  assign (set_isPending false).

(** [public refresh()] *)
Definition refresh : M unit :=
  pending <- this isPending ;;
  if pending : bool then ret tt else invoke.

(** [public purge()].  [this.pendingData?.finally?.(...)] calls [finally]
    whenever it is neither null nor undefined; when it is not a function the
    call throws, before [clear]. *)
Definition purge : M unit :=
  data <- this pendingData ;;
  match data with
  | Thenable p => promise_finally p Clear
  | Uncallable _ => throw TypeError
  | _ => ret tt
  end ;;
  clear.

(** [public getPending()] *)
Definition getPending : M value :=
  empty <- this isEmpty ;;
  (if empty : bool then refresh else ret tt) ;;
  this pendingData.

(** [public getFresh()] *)
Definition getFresh : M value :=
  purge ;;
  getPending.

(** [public getSettled()] *)
Definition getSettled : M value :=
  empty <- this isEmpty ;;
  if empty : bool then
    refresh ;;
    this pendingData
  else this settledData.

Definition no_settled_data : error := Error "No settled data available.".

(** [public getSettledOrThrowSync()] *)
Definition getSettledOrThrowSync : M value :=
  empty <- this isEmpty ;;
  if empty : bool then throw no_settled_data else this settledData.

(** [public stopFresh()] *)
Definition stopFresh : M unit :=
  timer <- this freshTimer ;;
  match timer with
  | Some t =>
      clearTimeout t ;;
      assign (set_freshTimer None)
  | None => ret tt
  end.

(** The default of [keepFresh]'s parameter. *)
Definition default_interval : float := (1000 * 60 * 60 * 30)%float.

(** [public keepFresh(interval)].  [unref] changes nothing that is kept
    here. *)
Definition keepFresh (interval : float) : M unit :=
  stopFresh ;;
  t <- setInterval interval ;;
  assign (set_freshTimer (Some t)).

(** ** The event loop *)

(** A call of a public method from outside. *)
Inductive op :=
| GetFresh
| GetPending
| GetSettled
| GetSettledOrThrowSync
| Refresh
| Purge
| KeepFresh (interval : float)
| StopFresh.

(** The method behind a call; what it returns is [Undefined] for the
    methods that return the cell or nothing. *)
Definition exec (o : op) : M value :=
  match o with
  | GetFresh => getFresh
  | GetPending => getPending
  | GetSettled => getSettled
  | GetSettledOrThrowSync => getSettledOrThrowSync
  | Refresh => refresh ;; ret Undefined
  | Purge => purge ;; ret Undefined
  | KeepFresh i => keepFresh i ;; ret Undefined
  | StopFresh => stopFresh ;; ret Undefined
  end.

Definition run_reaction (r : reaction) : M unit :=
  match r with
  | Settle => settle
  | Clear => clear
  end.

(** What can happen, one at a time; no method is ever interrupted. *)
Inductive event :=
| Call (o : op)                            (* a caller runs a method *)
| Complete (p : promise_id) (c : completion) (* promise [p] completes *)
| RunMicrotask                             (* the oldest promise job runs *)
| TimerFire (t : timer_id)                 (* interval [t] elapses *)
| RunTick.                                 (* the oldest nextTick callback runs *)

(** The completion of [p]: its reactions become jobs, in the order they
    were registered.  A promise completes once. *)
Definition complete (p : promise_id) (c : completion) (w : world) : world :=
  let pr := get_promise w p in
  match status pr with
  | None =>
      set_microtasks (microtasks w ++ map (pair p) (reactions pr))
        (set_promises
           (<[p := {| status := Some c; reactions := [] |}]> (promises w)) w)
  | Some _ => w
  end.

Definition step (e : event) (w : world) : world :=
  match e with
  | Call o => snd (exec o w)
  | Complete p c => complete p c w
  | RunMicrotask =>
      match microtasks w with
      | [] => w
      | (_, r) :: q => snd (run_reaction r (set_microtasks q w))
      end
  | TimerFire t =>
      match timers w !! t with
      | Some _ => set_ticks (S (ticks w)) w
      | None => w
      end
  | RunTick =>
      match ticks w with
      | O => w
      | S n => snd (refresh (set_ticks n w))
      end
  end.

Fixpoint run (es : list event) (w : world) : world :=
  match es with
  | [] => w
  | e :: es' => run es' (step e w)
  end.

(** The states the cell and its world can be in. *)
Definition reachable (f : nat -> fn_result) (w : world) : Prop :=
  exists es, run es (init f) = w.

(** ** The first [keepFresh] of the repository

    The oldest of the three versions of the class in the repository
    checks the interval before it touches the timer; the two later
    versions, [src/index.ts] among them, do not.  Its timer calls [refresh]
    itself, not through [process.nextTick]: the timers it makes are kept
    apart, in [direct]. *)
Module Legacy.

Record state := {
  base : world;
  direct : gset timer_id }.

(** [public keepFresh(timeout)], oldest version. *)
Definition keepFresh (timeout : float) (s : state) : outcome unit * state :=
  if negb (PrimFloat.is_finite timeout) || negb (PrimFloat.ltb 0 timeout)
  then
    (Ret tt,
     {| base := set_warnings
                  (warnings (base s) ++ [InvalidDuration timeout]) (base s);
        direct := direct s |})
  else
    match (stopFresh ;; setInterval timeout) (base s) with
    | (Ret t, w) =>
        (Ret tt,
         {| base := set_kept (set_freshTimer (Some t) (kept w)) w;
            direct := {[t]} ∪ direct s |})
    | (Thrown e, w) => (Thrown e, {| base := w; direct := direct s |})
    end.

End Legacy.

(** ** The producer and the traces of [src/index.test.ts]

    [expensive] counts its invocations and answers with a new promise each
    time; the promise of invocation [n] is promise [n] here, and the test
    lets it be fulfilled with [n]. *)
Definition expensive (n : nat) : fn_result := Returns (Thenable (S n)).

(** A producer that answers at once, with the plain value 7. *)
Definition immediate (_ : nat) : fn_result := Returns (Plain 7).

(** A producer that answers at once with [{finally: 5}]. *)
Definition answers_uncallable (_ : nat) : fn_result :=
  Returns (Uncallable 5).

(** The cell around it after one [refresh]. *)
Definition settled_uncallable : world :=
  run [Call Refresh] (init answers_uncallable).

(** The cell after one invocation that has run to its end: [getPending],
    the promise is fulfilled, [settle] has run. *)
Definition settled_once : world :=
  run [Call GetPending; Complete 1%nat (Fulfilled 1); RunMicrotask]
    (init expensive).

(** The cell while its first invocation is in flight. *)
Definition pending_once : world := run [Call GetPending] (init expensive).

(** Test "purge() after slow invocation", up to the moment invocation 2
    has settled: invocation 1 starts, [purge], invocation 2 starts, its
    promise [p2] completes first and its [settle] runs. *)
Definition fast_settles_first (p2 : promise_id) (c2 : completion)
  : list event :=
  [Call GetPending; Call Purge; Call GetPending; Complete p2 c2; RunMicrotask].

(** The same test from there on: the read [cacheOf2], then the promise
    [p1] of invocation 1 completes and its two reactions run. *)
Definition slow_settles_late (p1 : promise_id) (c1 : completion)
  : list event :=
  [Call GetPending; Complete p1 c1; RunMicrotask; RunMicrotask].

Definition second_settled : world :=
  run (fast_settles_first 2%nat (Fulfilled 2)) (init expensive).

Definition first_settled_late : world :=
  run (slow_settles_late 1%nat (Fulfilled 1)) second_settled.

(** A world with no timer and no warning, and a cell with no timer. *)
Definition mk_world (k : PromiseKeeper) (n : nat)
    (ps : gmap promise_id promise) (q : list (promise_id * reaction))
  : world :=
  {| kept := k; calls := n; promises := ps; microtasks := q;
     ticks := 0%nat; timers := ∅; next_timer := 0%nat; warnings := [] |}.

Definition mk_cell (f : nat -> fn_result) (settled pending : value)
    (empty watching : bool) : PromiseKeeper :=
  {| fn := f; settledData := settled; pendingData := pending;
     isEmpty := empty; isPending := watching; freshTimer := None |}.

(** The other order: invocation 1 starts, [purge], invocation 2 starts, and
    the purged promise 1 completes while invocation 2 is still in flight. *)
Definition purged_completes_first : world :=
  run [Call GetPending; Call Purge; Call GetPending;
       Complete 1%nat (Fulfilled 1)] (init expensive).

(** A cell that keeps itself fresh every 10 milliseconds. *)
Definition kept_fresh : world :=
  run [Call (KeepFresh 10%float)] (init expensive).

(** A settled cell with a background refresh in flight: the state the
    test "getSettled() not slowed down by pending" reads in. *)
Definition stale_pending : world := run [Call Refresh] settled_once.

(** The cell with nothing cached and nothing watched, as [clear] leaves
    it. *)
Definition cleared (k : PromiseKeeper) : PromiseKeeper :=
  set_isPending false
    (set_isEmpty true (set_pendingData Undefined (set_settledData Undefined k))).

(** The cell as an accepted [settle] leaves it. *)
Definition accepted (k : PromiseKeeper) : PromiseKeeper :=
  set_isPending false
    (set_isEmpty false (set_settledData (pendingData k) k)).

(** The events that can call the producer: the reads and [refresh], from a
    caller or from the timer's [process.nextTick]. *)
Definition may_invoke (e : event) : bool :=
  match e with
  | Call GetFresh | Call GetPending | Call GetSettled | Call Refresh => true
  | RunTick => true
  | _ => false
  end.

(** Nothing cached and nothing watched. *)
Definition is_cleared (k : PromiseKeeper) : Prop :=
  isEmpty k = true /\ isPending k = false /\
  settledData k = Undefined /\ pendingData k = Undefined.

(** The events that cannot call the producer. *)
Definition invokes_nothing (es : list event) : bool :=
  forallb (fun e => negb (may_invoke e)) es.

(** Three invocations in flight one after the other: as in
    [purged_completes_first], then the two reactions of promise 1 run,
    a [refresh] starts invocation 3, and promise 2 completes. *)
Definition second_completes_during_third : world :=
  run [RunMicrotask; RunMicrotask; Call Refresh;
       Complete 2%nat (Fulfilled 2)] purged_completes_first.

(** The events that end the watch on the invocation in flight: a purge
    from a caller, and a promise job (a settle or a deferred clear). *)
Definition ends_watch (e : event) : bool :=
  match e with
  | Call Purge | Call GetFresh => true
  | RunMicrotask => true
  | _ => false
  end.

Definition keeps_watching (es : list event) : bool :=
  forallb (fun e => negb (ends_watch e)) es.

(** A method keeps a property of the world. *)
Definition preserves {A} (P : world -> Prop) (m : M A) : Prop :=
  forall w, P w -> P (snd (m w)).

(** The invariant of the data fields: an empty cell has no settled value. *)
Definition empty_means_absent (w : world) : Prop :=
  isEmpty (kept w) = true -> settledData (kept w) = Undefined.

(** ** The registry of wrapped functions

    [const storage = new WeakMap()] and the default export of
    [src/index.ts].  A function object is its identity together with what it
    does; the map is keyed by the identity.  The cells live in a heap of
    their own and are handed out by reference.  That the map is weak is not
    seen by a program that holds the function, and is not modelled. *)

Definition cell_ref := nat.

Record kept_function := {
  fn_ref : nat;
  fn_body : nat -> fn_result }.

Record registry := {
  storage : gmap nat cell_ref;
  cells : gmap cell_ref PromiseKeeper;
  next_cell : cell_ref }.

(** No function wrapped yet. *)
Definition empty_registry : registry :=
  {| storage := ∅; cells := ∅; next_cell := 0%nat |}.

(** [export default (fn) => ...]: the cell stored for [fn], or a new one,
    which is stored.  Binding the methods to the new cell changes nothing
    here, where a method is always run on its cell. *)
Definition keep (f : kept_function) (r : registry) : cell_ref * registry :=
  match storage r !! fn_ref f with
  | None =>
      (next_cell r,
       {| storage := <[fn_ref f := next_cell r]> (storage r);
          cells := <[next_cell r := new_PromiseKeeper (fn_body f)]> (cells r);
          next_cell := S (next_cell r) |})
  | Some existing => (existing, r)
  end.

(** The registry after wrapping the functions of a list, in order. *)
Definition keep_all (fs : list kept_function) (r : registry) : registry :=
  fold_left (fun r' f => snd (keep f r')) fs r.

(** ** More traces and predicates *)

(** The three reads. *)
Definition is_read (e : event) : bool :=
  match e with
  | Call GetPending | Call GetSettled | Call GetSettledOrThrowSync => true
  | _ => false
  end.

Definition only_reads (es : list event) : bool := forallb is_read es.

(** A producer that throws on its second call. *)
Definition throws_second (n : nat) : fn_result :=
  match n with
  | 1%nat => Throws (Error "boom")
  | _ => Returns (Thenable (S n))
  end.

(** The states of the class comment, "Possible States": with nothing
    watched, an empty cell holds no pending data (state 1) and a non-empty
    cell holds its settled data as pending data (state 3). *)
Definition idle_states (w : world) : Prop :=
  isPending (kept w) = false ->
  (isEmpty (kept w) = true -> pendingData (kept w) = Undefined) /\
  (isEmpty (kept w) = false -> settledData (kept w) = pendingData (kept w)).

(** The cell owns the timers: the one in [freshTimer] runs and no
    other. *)
Definition owns_timers (w : world) : Prop :=
  match freshTimer (kept w) with
  | Some t => exists i, timers w = {[t := i]}
  | None => timers w = ∅
  end.

(** The settle of the watched invocation is on its way: the pending data
    is a promise, and its [settle] is registered on the pending promise or
    waits in the job queue. *)
Definition settle_is_due (w : world) : Prop :=
  isPending (kept w) = true ->
  exists p,
    pendingData (kept w) = Thenable p /\
    ((status (get_promise w p) = None /\
      In Settle (reactions (get_promise w p))) \/
     In (p, Settle) (microtasks w)).

(** Every stored cell was handed out before, and no cell is stored for
    two functions. *)
Definition registry_ok (r : registry) : Prop :=
  (forall k c, storage r !! k = Some c -> c < next_cell r)%nat /\
  (forall k k' c, storage r !! k = Some c -> storage r !! k' = Some c ->
                  k = k').


(** A cell that was told twice to keep itself fresh. *)
Definition kept_fresh_twice : world :=
  run [Call (KeepFresh 10%float); Call (KeepFresh 20%float)] (init expensive).

(** * Properties *)

(** ** Running the methods symbolically *)

(** Computes the fields of a world written with the setters. *)
Ltac fields :=
  cbn [kept calls promises microtasks ticks timers next_timer warnings
       fn settledData pendingData isEmpty isPending freshTimer
       set_kept set_calls set_promises set_microtasks set_ticks set_timers
       set_warnings set_settledData set_pendingData set_isEmpty set_isPending
       set_freshTimer cleared accepted fst snd mk_world mk_cell].

Lemma run_cons (e : event) (es : list event) (w : world) :
  run (e :: es) w = run es (step e w).
Proof. reflexivity. Qed.

Lemma run_app (es es' : list event) :
  forall w, run (es ++ es') w = run es' (run es w).
Proof.
  induction es as [|e es IH]; intros w; simpl; [reflexivity | apply IH].
Qed.

(** ** [refresh] while an invocation is pending *)

Lemma refresh_pending_noop (w : world) :
  isPending (kept w) = true -> refresh w = (Ret tt, w).
Proof.
  intros Hp. unfold refresh, bind, this. rewrite Hp. reflexivity.
Qed.

Lemma getPending_pending (w : world) :
  isPending (kept w) = true ->
  getPending w = (Ret (pendingData (kept w)), w).
Proof.
  intros Hp. unfold getPending, bind, this.
  destruct (isEmpty (kept w)); [rewrite (refresh_pending_noop w Hp)|];
    reflexivity.
Qed.

Lemma getSettled_nonempty (w : world) :
  isEmpty (kept w) = false ->
  getSettled w = (Ret (settledData (kept w)), w).
Proof.
  intros He. unfold getSettled, bind, this. rewrite He. reflexivity.
Qed.

Lemma getSettled_empty (w : world) :
  isEmpty (kept w) = true ->
  getSettled w = (refresh ;; this pendingData) w.
Proof.
  intros He. unfold getSettled at 1, bind at 1, this at 1. rewrite He.
  reflexivity.
Qed.

(** ** Properties of the world that a method keeps *)

Section Preserves.

Variable P : world -> Prop.

Lemma preserves_ret {A} (a : A) : preserves P (ret a).
Proof. intros w Hw. exact Hw. Qed.

Lemma preserves_throw {A} (e : error) : preserves P (@throw A e).
Proof. intros w Hw. exact Hw. Qed.

Lemma preserves_this {A} (f : PromiseKeeper -> A) : preserves P (this f).
Proof. intros w Hw. exact Hw. Qed.

Lemma preserves_bind {A B} (m : M A) (k : A -> M B) :
  preserves P m -> (forall a, preserves P (k a)) -> preserves P (bind m k).
Proof.
  intros Hm Hk w Hw. unfold bind. specialize (Hm w Hw).
  destruct (m w) as [[a | e] w']; simpl in *; [apply Hk|]; assumption.
Qed.

(** What does not depend on the cell's data and flags is kept by
    everything that only touches promises, jobs, timers and the producer's
    call count. *)
Hypothesis P_cell :
  forall w w', kept w' = kept w -> P w -> P w'.

Lemma preserves_call_fn : preserves P call_fn.
Proof.
  intros w Hw. unfold call_fn.
  destruct (fn (kept w) (calls w)); simpl; apply (P_cell w); auto.
Qed.

Lemma preserves_promise_finally p r : preserves P (promise_finally p r).
Proof.
  intros w Hw. unfold promise_finally.
  destruct (status (get_promise w p)); simpl; apply (P_cell w); auto.
Qed.

Lemma preserves_setInterval i : preserves P (setInterval i).
Proof. intros w Hw. apply (P_cell w); auto. Qed.

Lemma preserves_clearTimeout t : preserves P (clearTimeout t).
Proof. intros w Hw. apply (P_cell w); auto. Qed.

Lemma complete_kept p c w : kept (complete p c w) = kept w.
Proof. unfold complete. destruct (status (get_promise w p)); reflexivity. Qed.

(** The methods, from what their blocks keep. *)
Hypothesis P_settle : preserves P settle.
Hypothesis P_clear : preserves P clear.
Hypothesis P_isPending : forall b, preserves P (assign (set_isPending b)).
Hypothesis P_pendingData : forall v, preserves P (assign (set_pendingData v)).
Hypothesis P_freshTimer : forall t, preserves P (assign (set_freshTimer t)).

Lemma preserves_purge : preserves P purge.
Proof.
  unfold purge. apply preserves_bind; [apply preserves_this|]. intros v.
  apply preserves_bind; [|intros _; apply P_clear].
  destruct v;
    [apply preserves_ret | apply preserves_ret
     | apply preserves_promise_finally | apply preserves_throw].
Qed.

Lemma preserves_stopFresh : preserves P stopFresh.
Proof.
  unfold stopFresh. apply preserves_bind; [apply preserves_this|].
  intros [t|]; [|apply preserves_ret].
  apply preserves_bind; [apply preserves_clearTimeout|].
  intros _. apply P_freshTimer.
Qed.

Lemma preserves_keepFresh i : preserves P (keepFresh i).
Proof.
  unfold keepFresh. apply preserves_bind; [apply preserves_stopFresh|].
  intros _. apply preserves_bind; [apply preserves_setInterval|].
  intros t. apply P_freshTimer.
Qed.

Lemma preserves_getSettledOrThrowSync : preserves P getSettledOrThrowSync.
Proof.
  unfold getSettledOrThrowSync. apply preserves_bind; [apply preserves_this|].
  intros [|]; [apply preserves_throw | apply preserves_this].
Qed.

Lemma preserves_invoke : preserves P invoke.
Proof.
  unfold invoke. apply preserves_bind; [apply P_isPending|]. intros _.
  apply preserves_bind; [apply preserves_call_fn|]. intros v.
  apply preserves_bind; [apply P_pendingData|]. intros _.
  destruct v;
    [apply P_settle | apply P_settle
     | apply preserves_promise_finally | apply P_settle].
Qed.

Lemma preserves_refresh : preserves P refresh.
Proof.
  unfold refresh. apply preserves_bind; [apply preserves_this|].
  intros [|]; [apply preserves_ret | apply preserves_invoke].
Qed.

Lemma preserves_getPending : preserves P getPending.
Proof.
  unfold getPending. apply preserves_bind; [apply preserves_this|].
  intros b. apply preserves_bind; [|intros _; apply preserves_this].
  destruct b; [apply preserves_refresh | apply preserves_ret].
Qed.

Lemma preserves_getSettled : preserves P getSettled.
Proof.
  unfold getSettled. apply preserves_bind; [apply preserves_this|].
  intros [|]; [|apply preserves_this].
  apply preserves_bind; [apply preserves_refresh|].
  intros _. apply preserves_this.
Qed.

Lemma preserves_getFresh : preserves P getFresh.
Proof.
  unfold getFresh. apply preserves_bind; [apply preserves_purge|].
  intros _. apply preserves_getPending.
Qed.

Lemma preserves_exec o : preserves P (exec o).
Proof.
  destruct o; simpl;
    try (apply preserves_bind; [|intros _; apply preserves_ret]);
    auto using preserves_getFresh, preserves_getPending,
      preserves_getSettled, preserves_getSettledOrThrowSync,
      preserves_refresh, preserves_purge, preserves_keepFresh,
      preserves_stopFresh.
Qed.

Lemma preserves_step e w : P w -> P (step e w).
Proof.
  intros Hw. destruct e as [o | p c | | t | ]; simpl.
  - apply preserves_exec, Hw.
  - apply (P_cell w); [apply complete_kept | exact Hw].
  - destruct (microtasks w) as [|[q r] js] eqn:E; [exact Hw|].
    assert (Hq : P (set_microtasks js w)) by (apply (P_cell w); auto).
    destruct r; [apply P_settle | apply P_clear]; exact Hq.
  - destruct (timers w !! t); [apply (P_cell w); auto | exact Hw].
  - destruct (ticks w) as [|n]; [exact Hw|].
    apply preserves_refresh. apply (P_cell w); auto.
Qed.

Lemma preserves_run es : forall w, P w -> P (run es w).
Proof.
  induction es as [|e es IH]; intros w Hw; simpl; [exact Hw|].
  apply IH, preserves_step, Hw.
Qed.

End Preserves.

(** ** What the private blocks do to the world *)

Lemma settle_suppressed (w : world) :
  isPending (kept w) = false -> settle w = (Ret tt, w).
Proof.
  intros Hp. unfold settle, bind, this. rewrite Hp. reflexivity.
Qed.

Lemma settle_accepted (w : world) :
  isPending (kept w) = true ->
  settle w = (Ret tt, set_kept (accepted (kept w)) w).
Proof.
  intros Hp. unfold settle, bind, this. rewrite Hp. reflexivity.
Qed.

Lemma clear_eq (w : world) :
  clear w = (Ret tt, set_kept (cleared (kept w)) w).
Proof. reflexivity. Qed.

Lemma promise_finally_kept p r w :
  kept (snd (promise_finally p r w)) = kept w.
Proof.
  unfold promise_finally. destruct (status (get_promise w p)); reflexivity.
Qed.

Lemma promise_finally_ret p r w : fst (promise_finally p r w) = Ret tt.
Proof.
  unfold promise_finally. destruct (status (get_promise w p)); reflexivity.
Qed.

(** [p.finally(r)] on a promise that is still pending. *)
Lemma promise_finally_pending p r w :
  status (get_promise w p) = None ->
  promise_finally p r w =
    (Ret tt,
     set_promises
       (<[p := {| status := None;
                  reactions := reactions (get_promise w p) ++ [r] |}]>
          (promises w)) w).
Proof. intros H. unfold promise_finally. rewrite H. reflexivity. Qed.

(** [p.finally(r)] on a promise that has completed. *)
Lemma promise_finally_completed p r c w :
  status (get_promise w p) = Some c ->
  promise_finally p r w =
    (Ret tt, set_microtasks (microtasks w ++ [(p, r)]) w).
Proof. intros H. unfold promise_finally. rewrite H. reflexivity. Qed.

(** [purge] throws, and changes nothing, when the [finally] of
    [pendingData] cannot be called. *)
Lemma purge_throws (w : world) (z : Z) :
  pendingData (kept w) = Uncallable z -> purge w = (Thrown TypeError, w).
Proof. intros Hd. unfold purge, bind, this. rewrite Hd. reflexivity. Qed.

(** Otherwise [purge] is: the watcher, if [pendingData] has a [finally],
    then [clear]. *)
Lemma purge_eq (w : world) :
  (forall z, pendingData (kept w) <> Uncallable z) ->
  purge w =
    (Ret tt,
     set_kept (cleared (kept w))
       match pendingData (kept w) with
       | Thenable p => snd (promise_finally p Clear w)
       | _ => w
       end).
Proof.
  intros Hcall. unfold purge, bind, this.
  destruct (pendingData (kept w)) as [| z | p | z]; try reflexivity;
    [|destruct (Hcall z eq_refl)].
  pose proof (promise_finally_kept p Clear w) as Hk.
  pose proof (promise_finally_ret p Clear w) as Hr.
  destruct (promise_finally p Clear w) as [o w']; simpl in *; subst o.
  rewrite clear_eq, Hk. reflexivity.
Qed.

(** [invoke] when the producer returns a promise. *)
Lemma invoke_thenable (w : world) (p : promise_id) :
  fn (kept w) (calls w) = Returns (Thenable p) ->
  invoke w =
    promise_finally p Settle
      (set_kept (set_pendingData (Thenable p) (set_isPending true (kept w)))
         (set_calls (S (calls w)) w)).
Proof.
  intros Hf. unfold invoke, bind, assign, call_fn. simpl. rewrite Hf.
  reflexivity.
Qed.

(** [invoke] when the producer returns anything else. *)
Lemma invoke_plain (w : world) (v : value) :
  fn (kept w) (calls w) = Returns v ->
  (forall p, v <> Thenable p) ->
  invoke w =
    (Ret tt,
     set_kept
       (accepted (set_pendingData v (set_isPending true (kept w))))
       (set_calls (S (calls w)) w)).
Proof.
  intros Hf Hv. unfold invoke, bind, assign, call_fn. simpl. rewrite Hf.
  destruct v as [| z | p | z]; try reflexivity. destruct (Hv p eq_refl).
Qed.

(** [invoke] when the producer throws: the cell is left watching. *)
Lemma invoke_throws (w : world) (e : error) :
  fn (kept w) (calls w) = Throws e ->
  invoke w =
    (Thrown e,
     set_kept (set_isPending true (kept w)) (set_calls (S (calls w)) w)).
Proof.
  intros Hf. unfold invoke, bind, assign, call_fn. simpl. rewrite Hf.
  reflexivity.
Qed.

(** ** Reads and [refresh] during one pending invocation *)

(** While the cell is watching an invocation, an event that is not a purge
    and not a promise job keeps it watching the same pending value, and the
    producer is not called. *)
Lemma watching_step (w : world) (e : event) :
  isPending (kept w) = true ->
  ends_watch e = false ->
  isPending (kept (step e w)) = true /\
  pendingData (kept (step e w)) = pendingData (kept w) /\
  calls (step e w) = calls w.
Proof.
  intros Hp He. destruct e as [o | p c | | t | ]; simpl in *;
    try discriminate He.
  - destruct o; simpl in *; try discriminate He.
    + rewrite getPending_pending by assumption. auto.
    + unfold getSettled, bind, this.
      destruct (isEmpty (kept w)); [|auto].
      rewrite refresh_pending_noop by assumption. auto.
    + unfold getSettledOrThrowSync, bind, this, throw.
      destruct (isEmpty (kept w)); auto.
    + unfold bind. rewrite refresh_pending_noop by assumption. auto.
    + unfold keepFresh, stopFresh, bind, this.
      destruct (freshTimer (kept w)); auto.
    + unfold stopFresh, bind, this.
      destruct (freshTimer (kept w)); auto.
  - unfold complete. destruct (status (get_promise w p)); auto.
  - destruct (timers w !! t); auto.
  - destruct (ticks w) as [|n]; [auto|].
    rewrite refresh_pending_noop by assumption. auto.
Qed.

Lemma watching_run (es : list event) :
  forall w, isPending (kept w) = true ->
            keeps_watching es = true ->
            isPending (kept (run es w)) = true /\
            pendingData (kept (run es w)) = pendingData (kept w) /\
            calls (run es w) = calls w.
Proof.
  induction es as [|e es IH]; intros w Hp Hes; simpl in *; [auto|].
  apply andb_prop in Hes as [He Hes].
  destruct (ends_watch e) eqn:Hw; [discriminate He|].
  destruct (watching_step w e Hp Hw) as (Hp' & Hd' & Hc').
  destruct (IH (step e w) Hp' Hes) as (Hp'' & Hd'' & Hc'').
  rewrite Hd'', Hc''. auto.
Qed.

(** C5. While [isPending] is true, [refresh] starts no invocation and
    changes nothing, and [getPending] hands out the pending value the cell
    holds and changes nothing: two reads in a row return the same promise.
    The same holds with other events in between: as long as no purge and no
    promise job ends the watch, the producer is not called again and every
    [getPending] returns the promise of the one invocation in flight. *)
Theorem refresh_while_pending_starts_nothing (w : world) :
  isPending (kept w) = true ->
  refresh w = (Ret tt, w) /\
  getPending w = (Ret (pendingData (kept w)), w) /\
  (a <- getPending ;; b <- getPending ;; ret (a, b)) w =
    (Ret (pendingData (kept w), pendingData (kept w)), w) /\
  (forall es, keeps_watching es = true ->
     calls (run es w) = calls w /\
     getPending (run es w) = (Ret (pendingData (kept w)), run es w)).
Proof.
  intros Hp. split; [|split; [|split]].
  - apply refresh_pending_noop, Hp.
  - apply getPending_pending, Hp.
  - unfold bind. rewrite !getPending_pending by assumption. reflexivity.
  - intros es Hes. destruct (watching_run es w Hp Hes) as (Hp' & Hd' & Hc').
    split; [exact Hc'|]. rewrite getPending_pending by assumption.
    rewrite Hd'. reflexivity.
Qed.

(** The first invocation of the test producer is in flight: two reads in
    a row are both promise 1; and after [keepFresh], a [refresh] from its
    timer, a [refresh], a [getSettled] and a [getPending] the producer has
    still been called once and the read is still promise 1. *)
Lemma refresh_while_pending_starts_nothing_witness :
  (a <- getPending ;; b <- getPending ;; ret (a, b)) pending_once =
    (Ret (Thenable 1%nat, Thenable 1%nat), pending_once) /\
  calls (run [Call (KeepFresh 10%float); TimerFire 0%nat; RunTick;
              Call Refresh; Call GetSettled; Call GetPending]
           pending_once) = 1%nat /\
  fst (getPending
         (run [Call (KeepFresh 10%float); TimerFire 0%nat; RunTick;
               Call Refresh; Call GetSettled; Call GetPending]
            pending_once)) = Ret (Thenable 1%nat).
Proof.
  pose proof (refresh_while_pending_starts_nothing pending_once eq_refl)
    as (_ & _ & Hab & Hes).
  destruct (Hes [Call (KeepFresh 10%float); TimerFire 0%nat; RunTick;
                 Call Refresh; Call GetSettled; Call GetPending]
              eq_refl) as (Hcalls & Hread).
  split; [exact Hab|]. split; [exact Hcalls|].
  rewrite Hread. reflexivity.
Defined.

(** On an empty cell a read with [getPending] starts what [refresh]
    starts. *)
Lemma getPending_empty_as_refresh (w : world) :
  isEmpty (kept w) = true ->
  step (Call GetPending) w = step (Call Refresh) w.
Proof.
  intros He. simpl. unfold getPending, bind, this. rewrite He.
  destruct (refresh w) as [[[] | e] w']; reflexivity.
Qed.

(** The default interval is 108000000 ms, thirty hours. *)
Lemma default_interval_value : default_interval = 108000000%float.
Proof. reflexivity. Qed.

(** ** The strict read *)

Lemma getSettledOrThrowSync_empty (w : world) :
  isEmpty (kept w) = true ->
  getSettledOrThrowSync w = (Thrown no_settled_data, w).
Proof.
  intros He. unfold getSettledOrThrowSync, bind, this. rewrite He.
  reflexivity.
Qed.

Lemma getSettledOrThrowSync_nonempty (w : world) :
  isEmpty (kept w) = false ->
  getSettledOrThrowSync w = (Ret (settledData (kept w)), w).
Proof.
  intros He. unfold getSettledOrThrowSync, bind, this. rewrite He.
  reflexivity.
Qed.

(** The strict read, as far as the code does what C6 says.  On an empty
    cell [getSettledOrThrowSync] throws "No settled data available." and
    leaves the world as it was (the producer is not called, no promise or
    job is touched); on a non-empty cell it returns [settledData].  A new
    cell is empty, and so is every cell right after a [purge] that returns,
    which it does unless the [finally] of [pendingData] cannot be called. *)
Lemma getSettledOrThrowSync_spec (f : nat -> fn_result) (w : world) :
  (isEmpty (kept w) = true ->
   getSettledOrThrowSync w = (Thrown (Error "No settled data available."), w))
  /\
  (isEmpty (kept w) = false ->
   getSettledOrThrowSync w = (Ret (settledData (kept w)), w)) /\
  getSettledOrThrowSync (init f) =
    (Thrown (Error "No settled data available."), init f) /\
  ((forall z, pendingData (kept w) <> Uncallable z) ->
   getSettledOrThrowSync (step (Call Purge) w) =
     (Thrown (Error "No settled data available."), step (Call Purge) w)).
Proof.
  split; [|split; [|split]].
  - apply getSettledOrThrowSync_empty.
  - apply getSettledOrThrowSync_nonempty.
  - reflexivity.
  - intros Hcall. apply getSettledOrThrowSync_empty. simpl. unfold bind.
    rewrite purge_eq by exact Hcall. reflexivity.
Qed.

(** The test "getSettledOrThrowSync actually throws": a new cell throws,
    after one completed invocation the read returns promise 1, and after a
    [purge] it throws again. *)
Lemma getSettledOrThrowSync_spec_witness :
  fst (getSettledOrThrowSync (init expensive)) = Thrown no_settled_data /\
  fst (getSettledOrThrowSync settled_once) = Ret (Thenable 1%nat) /\
  fst (getSettledOrThrowSync (step (Call Purge) settled_once)) =
    Thrown no_settled_data.
Proof.
  assert (Hcall : forall z, pendingData (kept settled_once) <> Uncallable z)
    by discriminate.
  pose proof (getSettledOrThrowSync_spec expensive settled_once)
    as (_ & Hfull & _ & Hpurged).
  pose proof (getSettledOrThrowSync_spec expensive (init expensive))
    as (Hempty & _).
  split; [rewrite (Hempty eq_refl); reflexivity|].
  split; [rewrite (Hfull eq_refl); reflexivity|].
  rewrite (Hpurged Hcall). reflexivity.
Defined.

(** C6 fails on the code for one kind of input.  The producer returns a
    value with a [finally] that is not a function; [invoke] settles it at
    once, as it does every value that is not a promise.  The invocation is
    completed and the cell is filled.  But [purge] throws a [TypeError] on
    calling that [finally], before it clears: the cell is as before, and the
    strict read returns the value instead of throwing. *)
Theorem strict_read_after_purge_that_throws :
  (isEmpty (kept settled_uncallable) = false /\
   isPending (kept settled_uncallable) = false /\
   settledData (kept settled_uncallable) = Uncallable 5 /\
   calls settled_uncallable = 1%nat) /\
  purge settled_uncallable = (Thrown TypeError, settled_uncallable) /\
  getSettledOrThrowSync (step (Call Purge) settled_uncallable) =
    (Ret (Uncallable 5), step (Call Purge) settled_uncallable).
Proof. vm_compute. repeat split. Qed.

(** ** The read that prefers settled data *)

(** C7. On a non-empty cell [getSettled] returns [settledData] and leaves
    the world as it was, whether or not a refresh is pending; on an empty
    cell it is [refresh] followed by a read of [pendingData], so when
    [refresh] returns, it returns the [pendingData] that [refresh] left. *)
Theorem getSettled_spec (w : world) :
  (isEmpty (kept w) = false ->
   getSettled w = (Ret (settledData (kept w)), w)) /\
  (isEmpty (kept w) = true ->
   getSettled w = (refresh ;; this pendingData) w) /\
  (isEmpty (kept w) = true ->
   forall w', refresh w = (Ret tt, w') ->
   getSettled w = (Ret (pendingData (kept w')), w')).
Proof.
  split; [|split].
  - apply getSettled_nonempty.
  - apply getSettled_empty.
  - intros He w' Hr. rewrite getSettled_empty by assumption.
    unfold bind. rewrite Hr. reflexivity.
Qed.

(** With a refresh for promise 2 in flight the read is still the settled
    promise 1 and nothing moves; on a new cell the read starts invocation 1
    and returns its promise. *)
Lemma getSettled_spec_witness :
  isPending (kept stale_pending) = true /\
  pendingData (kept stale_pending) = Thenable 2%nat /\
  getSettled stale_pending = (Ret (Thenable 1%nat), stale_pending) /\
  getSettled (init expensive) = (Ret (Thenable 1%nat), pending_once).
Proof.
  pose proof (getSettled_spec stale_pending) as (Hfull & _).
  pose proof (getSettled_spec (init expensive)) as (_ & _ & Hempty).
  split; [reflexivity|]. split; [reflexivity|].
  split; [exact (Hfull eq_refl)|].
  exact (Hempty eq_refl pending_once eq_refl).
Defined.

(** ** A producer that answers at once *)

(** C10. When the producer returns a value without [finally], [invoke]
    settles before it returns: the cell is then non-empty and not pending,
    its settled value is that value, and [getSettledOrThrowSync] returns it.
    [refresh] on a cell that is not pending is this [invoke]. *)
Theorem invoke_settles_plain_value_at_once (w : world) (v : value) :
  fn (kept w) (calls w) = Returns v ->
  (forall p, v <> Thenable p) ->
  fst (invoke w) = Ret tt /\
  isEmpty (kept (snd (invoke w))) = false /\
  isPending (kept (snd (invoke w))) = false /\
  settledData (kept (snd (invoke w))) = v /\
  getSettledOrThrowSync (snd (invoke w)) = (Ret v, snd (invoke w)) /\
  microtasks (snd (invoke w)) = microtasks w /\
  (isPending (kept w) = false -> refresh w = invoke w).
Proof.
  intros Hf Hv. rewrite (invoke_plain w v Hf Hv). simpl.
  repeat split.
  intros Hp. unfold refresh, bind, this. rewrite Hp.
  apply invoke_plain; assumption.
Qed.

(** A new cell around a producer that returns the plain value 7: one
    [refresh], and the strict read returns 7. *)
Lemma invoke_settles_plain_value_at_once_witness :
  getSettledOrThrowSync (snd (refresh (init immediate))) =
    (Ret (Plain 7), snd (refresh (init immediate))) /\
  isEmpty (kept (snd (refresh (init immediate)))) = false /\
  isPending (kept (snd (refresh (init immediate)))) = false.
Proof.
  assert (Hv : forall p, Plain 7 <> Thenable p) by discriminate.
  pose proof (invoke_settles_plain_value_at_once (init immediate) (Plain 7)
                eq_refl Hv) as (_ & He & Hp & _ & Hget & _ & Href).
  rewrite (Href eq_refl). auto.
Defined.

(** ** The invariant of the two data fields *)

Lemma empty_means_absent_cell (w w' : world) :
  kept w' = kept w -> empty_means_absent w -> empty_means_absent w'.
Proof. unfold empty_means_absent. intros ->. auto. Qed.

Lemma empty_means_absent_settle : preserves empty_means_absent settle.
Proof.
  intros w Hw. destruct (isPending (kept w)) eqn:Hp.
  - rewrite settle_accepted by assumption. intros He. discriminate He.
  - rewrite settle_suppressed by assumption. exact Hw.
Qed.

Lemma empty_means_absent_clear : preserves empty_means_absent clear.
Proof. intros w _ _. reflexivity. Qed.

Lemma empty_means_absent_run (es : list event) (w : world) :
  empty_means_absent w -> empty_means_absent (run es w).
Proof.
  apply preserves_run.
  - apply empty_means_absent_cell.
  - apply empty_means_absent_settle.
  - apply empty_means_absent_clear.
  - intros b w' Hw'. exact Hw'.
  - intros v w' Hw'. exact Hw'.
  - intros t w' Hw'. exact Hw'.
Qed.

(** C8. In every state reached from a new cell by calls of the public
    methods, completions of promises, promise jobs, timer ticks and
    nextTick callbacks, in any order, an empty cell has no settled value. *)
Theorem empty_cell_has_no_settled_value (f : nat -> fn_result) (w : world) :
  reachable f w ->
  isEmpty (kept w) = true ->
  settledData (kept w) = Undefined.
Proof.
  intros [es <-]. apply empty_means_absent_run. intros _. reflexivity.
Qed.

(** The end of the test "purge() after slow invocation": a settled value
    had been cached and the late clear emptied the cell again. *)
Lemma empty_cell_has_no_settled_value_witness :
  settledData (kept second_settled) = Thenable 2%nat /\
  isEmpty (kept first_settled_late) = true /\
  settledData (kept first_settled_late) = Undefined.
Proof.
  split; [reflexivity|]. split; [reflexivity|].
  apply (empty_cell_has_no_settled_value expensive first_settled_late).
  - exists (fast_settles_first 2%nat (Fulfilled 2)
              ++ slow_settles_late 1%nat (Fulfilled 1)).
    apply run_app.
  - reflexivity.
Defined.

(** ** [purge] *)

Lemma get_promise_lookup (w : world) (p : promise_id) (pr : promise) :
  promises w !! p = Some pr -> get_promise w p = pr.
Proof. intros H. unfold get_promise. rewrite H. reflexivity. Qed.

(** C3, as the code has it, for every cell whose [pendingData] has no
    [finally] or one that can be called.  [purge] returns and leaves the
    cell cleared: [isEmpty] true, [isPending] false, both data fields
    deleted.  It attaches the watcher exactly when [pendingData] is a
    thenable at that moment, in flight or not: on a promise that is still
    pending the watcher is registered behind the reactions already there; on
    a promise that has completed and was left in [pendingData] it is queued
    as a job at once; with no thenable in [pendingData] no promise and no
    job is touched.  The watcher is [clear]: it leaves the cell cleared
    again. *)
Theorem purge_clears_and_watches_any_thenable (w : world) :
  (forall z, pendingData (kept w) <> Uncallable z) ->
  fst (purge w) = Ret tt /\
  kept (snd (purge w)) = cleared (kept w) /\
  (isEmpty (kept (snd (purge w))) = true /\
   isPending (kept (snd (purge w))) = false /\
   settledData (kept (snd (purge w))) = Undefined /\
   pendingData (kept (snd (purge w))) = Undefined) /\
  (forall p, pendingData (kept w) = Thenable p ->
     status (get_promise w p) = None ->
     reactions (get_promise (snd (purge w)) p) =
       reactions (get_promise w p) ++ [Clear] /\
     microtasks (snd (purge w)) = microtasks w) /\
  (forall p c, pendingData (kept w) = Thenable p ->
     status (get_promise w p) = Some c ->
     microtasks (snd (purge w)) = microtasks w ++ [(p, Clear)] /\
     promises (snd (purge w)) = promises w) /\
  ((forall p, pendingData (kept w) <> Thenable p) ->
     microtasks (snd (purge w)) = microtasks w /\
     promises (snd (purge w)) = promises w) /\
  (forall w', kept (snd (run_reaction Clear w')) = cleared (kept w')).
Proof.
  intros Hcall. rewrite purge_eq by exact Hcall. simpl.
  split; [reflexivity|]. split; [reflexivity|].
  split; [repeat split|].
  split; [|split; [|split]].
  - intros p Hd Hs. rewrite Hd.
    rewrite (promise_finally_pending p Clear w Hs). simpl.
    split; [|reflexivity].
    erewrite get_promise_lookup by apply lookup_insert_eq. reflexivity.
  - intros p c Hd Hs. rewrite Hd.
    rewrite (promise_finally_completed p Clear c w Hs). simpl.
    split; reflexivity.
  - intros Hd. destruct (pendingData (kept w)) as [| z | p | z];
      [split; reflexivity | split; reflexivity
       | destruct (Hd p eq_refl) | split; reflexivity].
  - intros w'. reflexivity.
Qed.

(** The three cases at hand: an invocation in flight, a settled invocation
    whose promise is still in [pendingData], and a new cell. *)
Lemma purge_clears_and_watches_any_thenable_witness :
  reactions (get_promise (snd (purge pending_once)) 1%nat) = [Settle; Clear] /\
  microtasks (snd (purge settled_once)) = [(1%nat, Clear)] /\
  microtasks (snd (purge (init expensive))) = [] /\
  promises (snd (purge (init expensive))) = ∅.
Proof.
  assert (H1 : forall z, pendingData (kept pending_once) <> Uncallable z)
    by discriminate.
  assert (H2 : forall z, pendingData (kept settled_once) <> Uncallable z)
    by discriminate.
  assert (H3 : forall z, pendingData (kept (init expensive)) <> Uncallable z)
    by discriminate.
  pose proof (purge_clears_and_watches_any_thenable pending_once H1)
    as (_ & _ & _ & Hflight & _).
  pose proof (purge_clears_and_watches_any_thenable settled_once H2)
    as (_ & _ & _ & _ & Hdone & _).
  pose proof (purge_clears_and_watches_any_thenable (init expensive) H3)
    as (_ & _ & _ & _ & _ & Hnone & _).
  split; [exact (proj1 (Hflight 1%nat eq_refl eq_refl))|].
  split; [exact (proj1 (Hdone 1%nat (Fulfilled 1) eq_refl eq_refl))|].
  assert (Hu : forall p, pendingData (kept (init expensive)) <> Thenable p)
    by discriminate.
  exact (Hnone Hu).
Defined.

(** C3 as stated fails.  After a settled invocation nothing is pending:
    the cell is not watching, the producer was called once and its one
    promise has completed; and still [purge] attaches its watcher to that
    promise, which queues the second clear. *)
Lemma purge_watches_settled_promise :
  isPending (kept settled_once) = false /\
  calls settled_once = 1%nat /\
  status (get_promise settled_once 1%nat) = Some (Fulfilled 1) /\
  pendingData (kept settled_once) = Thenable 1%nat /\
  microtasks settled_once = [] /\
  microtasks (snd (purge settled_once)) = [(1%nat, Clear)].
Proof. repeat split. Qed.

(** ** [keepFresh] *)

Lemma keepFresh_eq (i : float) (w : world) :
  keepFresh i w =
    (Ret tt,
     set_kept (set_freshTimer (Some (next_timer w)) (kept w))
       (set_timers
          (<[next_timer w := i]>
             match freshTimer (kept w) with
             | Some t => delete t (timers w)
             | None => timers w
             end)
          (S (next_timer w)) w)).
Proof.
  unfold keepFresh, stopFresh, bind, this.
  destruct (freshTimer (kept w)) as [t|]; reflexivity.
Qed.

(** C4, as the code has it. [keepFresh] does not look at its interval:
    for every interval, finite and positive or not, it returns without
    throwing and without a warning of its own, stops the timer the cell
    holds and installs a new one with the interval it was given, which
    becomes the cell's timer; the cell's data and flags are untouched. *)
Theorem keepFresh_replaces_timer_for_every_interval (i : float) (w : world) :
  fst (keepFresh i w) = Ret tt /\
  warnings (snd (keepFresh i w)) = warnings w /\
  kept (snd (keepFresh i w)) =
    set_freshTimer (Some (next_timer w)) (kept w) /\
  timers (snd (keepFresh i w)) !! next_timer w = Some i /\
  (forall t, freshTimer (kept w) = Some t -> t <> next_timer w ->
     timers (snd (keepFresh i w)) !! t = None).
Proof.
  rewrite keepFresh_eq. simpl. repeat split.
  - apply lookup_insert_eq.
  - intros t Ht Hne. rewrite Ht.
    rewrite lookup_insert_ne by congruence. apply lookup_delete_eq.
Qed.

(** A cell refreshing every 10 ms is told to refresh every -1 ms and
    every NaN ms: each time timer 0 is gone and timer 1 runs instead. *)
Lemma keepFresh_replaces_timer_for_every_interval_witness :
  timers (snd (keepFresh (-1)%float kept_fresh)) !! 0%nat = None /\
  timers (snd (keepFresh nan kept_fresh)) !! 0%nat = None /\
  timers (snd (keepFresh nan kept_fresh)) !! 1%nat = Some nan.
Proof.
  assert (Hne : 0%nat <> next_timer kept_fresh) by discriminate.
  pose proof (keepFresh_replaces_timer_for_every_interval (-1)%float
                kept_fresh) as (_ & _ & _ & _ & Hneg).
  pose proof (keepFresh_replaces_timer_for_every_interval nan kept_fresh)
    as (_ & _ & _ & Hnew & Hnan).
  split; [exact (Hneg 0%nat eq_refl Hne)|].
  split; [exact (Hnan 0%nat eq_refl Hne) | exact Hnew].
Defined.

(** C4 as stated fails, for -1 and for NaN alike: the timer scheduled
    before (timer 0, every 10 ms) is stopped, a new timer is installed with
    the invalid interval, and no warning is given. *)
Lemma keepFresh_invalid_interval_restarts_timer :
  (PrimFloat.ltb 0 (-1) = false /\ PrimFloat.is_finite nan = false) /\
  (timers kept_fresh !! 0%nat = Some 10%float /\
   freshTimer (kept kept_fresh) = Some 0%nat) /\
  (timers (snd (keepFresh (-1)%float kept_fresh)) !! 0%nat = None /\
   timers (snd (keepFresh (-1)%float kept_fresh)) !! 1%nat
     = Some (-1)%float /\
   freshTimer (kept (snd (keepFresh (-1)%float kept_fresh))) = Some 1%nat /\
   warnings (snd (keepFresh (-1)%float kept_fresh)) = []) /\
  (timers (snd (keepFresh nan kept_fresh)) !! 0%nat = None /\
   timers (snd (keepFresh nan kept_fresh)) !! 1%nat = Some nan /\
   freshTimer (kept (snd (keepFresh nan kept_fresh))) = Some 1%nat /\
   warnings (snd (keepFresh nan kept_fresh)) = []).
Proof. vm_compute. repeat split. Qed.


(** ** The guard of [settle] *)

Lemma is_cleared_cell (w w' : world) :
  kept w' = kept w -> is_cleared (kept w) -> is_cleared (kept w').
Proof. intros ->. auto. Qed.

Lemma is_cleared_settle :
  preserves (fun w => is_cleared (kept w)) settle.
Proof.
  intros w Hw. rewrite settle_suppressed; [exact Hw | apply Hw].
Qed.

Lemma is_cleared_clear :
  preserves (fun w => is_cleared (kept w)) clear.
Proof. intros w _. repeat split. Qed.

Lemma is_cleared_freshTimer (t : option timer_id) :
  preserves (fun w => is_cleared (kept w)) (assign (set_freshTimer t)).
Proof. intros w Hw. exact Hw. Qed.

(** A cleared cell stays cleared under every event that cannot call the
    producer: completions, promise jobs, timers going off, [purge], the
    strict read, [keepFresh] and [stopFresh]. *)
Lemma is_cleared_step (e : event) (w : world) :
  may_invoke e = false ->
  is_cleared (kept w) -> is_cleared (kept (step e w)).
Proof.
  intros He Hw. set (P := fun w => is_cleared (kept w)).
  assert (Hcell : forall w w', kept w' = kept w -> P w -> P w')
    by exact is_cleared_cell.
  destruct e as [o | p c | | t | ]; simpl in *; try discriminate He.
  - destruct o; try discriminate He; simpl.
    + apply (preserves_getSettledOrThrowSync P), Hw.
    + apply (preserves_bind P);
        [|intros _; apply preserves_ret | exact Hw].
      apply (preserves_purge P Hcell is_cleared_clear).
    + apply (preserves_bind P);
        [|intros _; apply preserves_ret | exact Hw].
      apply (preserves_keepFresh P Hcell is_cleared_freshTimer).
    + apply (preserves_bind P);
        [|intros _; apply preserves_ret | exact Hw].
      apply (preserves_stopFresh P Hcell is_cleared_freshTimer).
  - rewrite complete_kept. exact Hw.
  - destruct (microtasks w) as [|[q r] js]; [exact Hw|].
    destruct r; [apply is_cleared_settle | apply is_cleared_clear]; exact Hw.
  - destruct (timers w !! t); exact Hw.
Qed.

Lemma is_cleared_run (es : list event) :
  forall w, invokes_nothing es = true ->
            is_cleared (kept w) -> is_cleared (kept (run es w)).
Proof.
  induction es as [|e es IH]; intros w Hes Hw; simpl in *; [exact Hw|].
  apply andb_prop in Hes as [He Hes]. apply IH; [exact Hes|].
  apply is_cleared_step; [|exact Hw].
  destruct (may_invoke e); [discriminate He | reflexivity].
Qed.

(** C1, as the code has it.  [settle] carries no mark of the invocation
    that registered it: it changes the cell exactly when the flag
    [isPending] is true at the moment it runs, and then it accepts whatever
    [pendingData] holds at that moment.  After a [purge] that returns, as
    it does whenever the [finally] of [pendingData] can be called or is not
    there, and so whenever [pendingData] is a promise, the flag is false,
    and it stays false, with the cell empty, through every sequence of
    events that starts no new invocation; so the completion of an invocation
    that was purged in between is ignored as long as no other invocation was
    started before it completes. *)
Theorem settle_is_guarded_by_the_flag_alone :
  (forall w, isPending (kept w) = false -> settle w = (Ret tt, w)) /\
  (forall w, isPending (kept w) = true ->
     settle w = (Ret tt, set_kept (accepted (kept w)) w)) /\
  (forall w, (forall z, pendingData (kept w) <> Uncallable z) ->
     fst (purge w) = Ret tt) /\
  (forall w es, (forall z, pendingData (kept w) <> Uncallable z) ->
     invokes_nothing es = true ->
     is_cleared (kept (run es (step (Call Purge) w)))).
Proof.
  split; [exact settle_suppressed|]. split; [exact settle_accepted|].
  split; [intros w Hcall; rewrite purge_eq by exact Hcall; reflexivity|].
  intros w es Hcall Hes. apply is_cleared_run; [exact Hes|].
  simpl. unfold bind. rewrite purge_eq by exact Hcall. repeat split.
Qed.

(** A settle right after a purge changes nothing, a settle while
    invocation 1 is watched is accepted; and when invocation 1 is purged in
    flight and promise 1 then completes and its two reactions run, the
    settle is ignored and the cell is empty. *)
Lemma settle_is_guarded_by_the_flag_alone_witness :
  settle (step (Call Purge) pending_once) =
    (Ret tt, step (Call Purge) pending_once) /\
  settle pending_once =
    (Ret tt, set_kept (accepted (kept pending_once)) pending_once) /\
  microtasks (run [Complete 1%nat (Fulfilled 1)]
                (step (Call Purge) pending_once)) =
    [(1%nat, Settle); (1%nat, Clear)] /\
  is_cleared
    (kept (run [Complete 1%nat (Fulfilled 1); RunMicrotask; RunMicrotask]
             (step (Call Purge) pending_once))).
Proof.
  assert (Hcall : forall z, pendingData (kept pending_once) <> Uncallable z)
    by discriminate.
  destruct settle_is_guarded_by_the_flag_alone as (Hoff & Hon & _ & Hquiet).
  split; [exact (Hoff (step (Call Purge) pending_once) eq_refl)|].
  split; [exact (Hon pending_once eq_refl)|].
  split; [reflexivity|].
  exact (Hquiet pending_once
           [Complete 1%nat (Fulfilled 1); RunMicrotask; RunMicrotask]
           Hcall eq_refl).
Defined.

(** C1 as stated fails, twice on one trace.  Invocation 1 is purged
    while in flight and invocation 2 is started; promise 1 completes first.
    Its settle is not suppressed: the cell is watching invocation 2, so the
    flag is true and the settle of invocation 1 takes the pending promise 2
    for settled.  The deferred clear of promise 1 then empties the cell;
    invocation 3 is started; promise 2 completes, and the settle of
    invocation 2 is accepted for invocation 3: the cell stays non-empty with
    promise 3, which has not completed, as its settled value. *)
Lemma settle_of_unwatched_invocation_is_accepted :
  (microtasks purged_completes_first = [(1%nat, Settle); (1%nat, Clear)] /\
   isPending (kept purged_completes_first) = true /\
   pendingData (kept purged_completes_first) = Thenable 2%nat /\
   settledData (kept purged_completes_first) = Undefined /\
   isEmpty (kept purged_completes_first) = true) /\
  (settledData (kept (step RunMicrotask purged_completes_first))
     = Thenable 2%nat /\
   isEmpty (kept (step RunMicrotask purged_completes_first)) = false /\
   isPending (kept (step RunMicrotask purged_completes_first)) = false) /\
  (microtasks second_completes_during_third = [(2%nat, Settle)] /\
   isPending (kept second_completes_during_third) = true /\
   pendingData (kept second_completes_during_third) = Thenable 3%nat /\
   settledData (kept second_completes_during_third) = Undefined) /\
  (settledData (kept (step RunMicrotask second_completes_during_third))
     = Thenable 3%nat /\
   isEmpty (kept (step RunMicrotask second_completes_during_third)) = false /\
   isPending (kept (step RunMicrotask second_completes_during_third)) = false /\
   microtasks (step RunMicrotask second_completes_during_third) = [] /\
   status (get_promise (step RunMicrotask second_completes_during_third)
             3%nat) = None).
Proof. vm_compute. repeat split. Qed.

(** ** [getFresh] on a settled cell *)

Lemma getPending_idle_empty (w : world) :
  isEmpty (kept w) = true -> isPending (kept w) = false ->
  getPending w = (invoke ;; this pendingData) w.
Proof.
  intros He Hp. unfold getPending, refresh, bind, this.
  rewrite He, Hp. reflexivity.
Qed.

Lemma getFresh_after_settle_eq (w : world) (p q : promise_id)
    (c0 : completion) :
  pendingData (kept w) = Thenable p ->
  status (get_promise w p) = Some c0 ->
  fn (kept w) (calls w) = Returns (Thenable q) ->
  status (get_promise w q) = None ->
  getFresh w =
    (Ret (Thenable q),
     set_promises
       (<[q := {| status := None;
                  reactions := reactions (get_promise w q) ++ [Settle] |}]>
          (promises w))
       (set_kept
          (set_pendingData (Thenable q)
             (set_isPending true (cleared (kept w))))
          (set_calls (S (calls w))
             (set_microtasks (microtasks w ++ [(p, Clear)]) w)))).
Proof.
  intros Hd Hp Hf Hq. unfold getFresh. unfold bind at 1.
  rewrite purge_eq by (rewrite Hd; discriminate).
  rewrite Hd, (promise_finally_completed p Clear c0 w Hp). fields.
  rewrite getPending_idle_empty by reflexivity.
  unfold bind. rewrite (invoke_thenable _ q) by exact Hf.
  rewrite promise_finally_pending by exact Hq.
  reflexivity.
Qed.

(** C9. [settle] leaves the promise in [pendingData].  So on a cell whose
    invocation has settled (its promise [p] has completed, no job waits),
    [getFresh] queues a clear for [p] in its [purge] and then starts a new
    invocation, with promise [q]: the cell is pending on [q] with that clear
    waiting.  The clear runs first and wipes the pending state; when [q]
    completes its settle finds [isPending] false and does nothing; the cell
    ends empty, the result of [q] is not cached. *)
Theorem getFresh_after_settle_caches_nothing
    (w : world) (p q : promise_id) (c0 c : completion) :
  pendingData (kept w) = Thenable p ->
  status (get_promise w p) = Some c0 ->
  microtasks w = [] ->
  fn (kept w) (calls w) = Returns (Thenable q) ->
  status (get_promise w q) = None ->
  reactions (get_promise w q) = [] ->
  fst (getFresh w) = Ret (Thenable q) /\
  (microtasks (snd (getFresh w)) = [(p, Clear)] /\
   isPending (kept (snd (getFresh w))) = true /\
   pendingData (kept (snd (getFresh w))) = Thenable q) /\
  (isPending (kept (run [RunMicrotask] (snd (getFresh w)))) = false /\
   pendingData (kept (run [RunMicrotask] (snd (getFresh w)))) = Undefined) /\
  microtasks (run [RunMicrotask; Complete q c] (snd (getFresh w))) =
    [(q, Settle)] /\
  is_cleared
    (kept (run [RunMicrotask; Complete q c; RunMicrotask]
             (snd (getFresh w)))) /\
  microtasks (run [RunMicrotask; Complete q c; RunMicrotask]
                (snd (getFresh w))) = [].
Proof.
  intros Hd Hp Hm Hf Hq Hr.
  rewrite (getFresh_after_settle_eq w p q c0 Hd Hp Hf Hq), Hm, Hr.
  cbn [fst snd app run step]. fields. cbn [run_reaction].
  rewrite clear_eq. fields.
  unfold complete. erewrite get_promise_lookup by apply lookup_insert_eq.
  cbn [status reactions map app]. fields.
  repeat split.
Qed.

(** The settled cell of the test producer: [getFresh] returns promise 2,
    and after promise 2 is fulfilled the cell holds nothing. *)
Lemma getFresh_after_settle_caches_nothing_witness :
  fst (getFresh settled_once) = Ret (Thenable 2%nat) /\
  is_cleared
    (kept (run [RunMicrotask; Complete 2%nat (Fulfilled 2); RunMicrotask]
             (snd (getFresh settled_once)))).
Proof.
  pose proof (getFresh_after_settle_caches_nothing settled_once 1%nat 2%nat
                (Fulfilled 1) (Fulfilled 2)
                eq_refl eq_refl eq_refl eq_refl eq_refl eq_refl)
    as (Hret & _ & _ & _ & Hend & _).
  split; [exact Hret | exact Hend].
Defined.

(** ** The test "purge() after slow invocation" *)

Lemma get_promise_fresh (w : world) (p : promise_id) :
  promises w !! p = None -> get_promise w p = fresh_promise.
Proof. intros H. unfold get_promise. rewrite H. reflexivity. Qed.

(** A read on an empty cell that is not watching, when the producer
    returns a promise. *)
Lemma getPending_starts (w : world) (p : promise_id) :
  isEmpty (kept w) = true -> isPending (kept w) = false ->
  fn (kept w) (calls w) = Returns (Thenable p) ->
  getPending w =
    (Ret (Thenable p),
     snd (promise_finally p Settle
            (set_kept
               (set_pendingData (Thenable p) (set_isPending true (kept w)))
               (set_calls (S (calls w)) w)))).
Proof.
  intros He Hp Hf. rewrite getPending_idle_empty by assumption.
  unfold bind. rewrite (invoke_thenable w p Hf).
  pose proof (promise_finally_kept p Settle
    (set_kept (set_pendingData (Thenable p) (set_isPending true (kept w)))
       (set_calls (S (calls w)) w))) as Hk.
  pose proof (promise_finally_ret p Settle
    (set_kept (set_pendingData (Thenable p) (set_isPending true (kept w)))
       (set_calls (S (calls w)) w))) as Hr.
  destruct (promise_finally p Settle _) as [o w']. simpl in *. subst o.
  unfold this. rewrite Hk. reflexivity.
Qed.

Section SlowThenFast.

(** A producer whose first three calls return the promises [p1], [p2] and
    [p3], the first two not the same; [p1] completes with [c1] and [p2]
    with [c2]. *)
Variable f : nat -> fn_result.
Variables p1 p2 p3 : promise_id.
Variables c1 c2 : completion.
Hypothesis first_call : f 0%nat = Returns (Thenable p1).
Hypothesis second_call : f 1%nat = Returns (Thenable p2).
Hypothesis third_call : f 2%nat = Returns (Thenable p3).
Hypothesis distinct : p1 <> p2.

(** The promises after each step of the test. *)
Let m1 : gmap promise_id promise :=
  <[p1 := {| status := None; reactions := [Settle] |}]> ∅.
Let m2 : gmap promise_id promise :=
  <[p1 := {| status := None; reactions := [Settle; Clear] |}]> m1.
Let m3 : gmap promise_id promise :=
  <[p2 := {| status := None; reactions := [Settle] |}]> m2.
Let m4 : gmap promise_id promise :=
  <[p2 := {| status := Some c2; reactions := [] |}]> m3.
Let m5 : gmap promise_id promise :=
  <[p1 := {| status := Some c1; reactions := [] |}]> m4.

Lemma first_read_starts :
  getPending (init f) =
    (Ret (Thenable p1),
     mk_world (mk_cell f Undefined (Thenable p1) true true) 1 m1 []).
Proof.
  rewrite (getPending_starts _ p1) by (try reflexivity; exact first_call).
  rewrite promise_finally_pending by reflexivity.
  reflexivity.
Qed.

Lemma purge_in_flight :
  purge (mk_world (mk_cell f Undefined (Thenable p1) true true) 1 m1 []) =
    (Ret tt, mk_world (mk_cell f Undefined Undefined true false) 1 m2 []).
Proof.
  rewrite purge_eq by (intros z; fields; discriminate). fields.
  rewrite promise_finally_pending
    by (erewrite get_promise_lookup by apply lookup_insert_eq; reflexivity).
  erewrite get_promise_lookup by apply lookup_insert_eq.
  reflexivity.
Qed.

Lemma second_read_starts :
  getPending (mk_world (mk_cell f Undefined Undefined true false) 1 m2 []) =
    (Ret (Thenable p2),
     mk_world (mk_cell f Undefined (Thenable p2) true true) 2 m3 []).
Proof.
  rewrite (getPending_starts _ p2) by (try reflexivity; exact second_call).
  assert (Hfresh : forall w, promises w = m2 ->
                             get_promise w p2 = fresh_promise).
  { intros w Hw. apply get_promise_fresh. rewrite Hw. unfold m2, m1.
    rewrite !lookup_insert_ne by exact distinct. apply lookup_empty. }
  rewrite promise_finally_pending by (rewrite Hfresh; reflexivity).
  rewrite Hfresh by reflexivity.
  reflexivity.
Qed.

Lemma second_completes :
  complete p2 c2
    (mk_world (mk_cell f Undefined (Thenable p2) true true) 2 m3 []) =
    mk_world (mk_cell f Undefined (Thenable p2) true true) 2 m4
      [(p2, Settle)].
Proof.
  unfold complete.
  erewrite get_promise_lookup by apply lookup_insert_eq. reflexivity.
Qed.

Lemma first_completes_late :
  complete p1 c1
    (mk_world (mk_cell f (Thenable p2) (Thenable p2) false false) 2 m4 []) =
    mk_world (mk_cell f (Thenable p2) (Thenable p2) false false) 2 m5
      [(p1, Settle); (p1, Clear)].
Proof.
  assert (Hp1 : m4 !! p1
                = Some {| status := None; reactions := [Settle; Clear] |}).
  { unfold m4, m3.
    rewrite !lookup_insert_ne by (intros E; apply distinct; symmetry; exact E).
    apply lookup_insert_eq. }
  unfold complete.
  rewrite (get_promise_lookup
             (mk_world (mk_cell f (Thenable p2) (Thenable p2) false false)
                2 m4 []) p1 _ Hp1).
  reflexivity.
Qed.

Lemma run_until_purged :
  run [Call GetPending; Call Purge] (init f) =
    mk_world (mk_cell f Undefined Undefined true false) 1 m2 [].
Proof.
  rewrite run_cons.
  replace (step (Call GetPending) (init f))
    with (mk_world (mk_cell f Undefined (Thenable p1) true true) 1 m1 [])
    by (cbn [step exec]; rewrite first_read_starts; reflexivity).
  rewrite run_cons.
  replace (step (Call Purge)
             (mk_world (mk_cell f Undefined (Thenable p1) true true) 1 m1 []))
    with (mk_world (mk_cell f Undefined Undefined true false) 1 m2 [])
    by (cbn [step exec]; unfold bind; rewrite purge_in_flight; reflexivity).
  reflexivity.
Qed.

Lemma run_fast_settles_first :
  run (fast_settles_first p2 c2) (init f) =
    mk_world (mk_cell f (Thenable p2) (Thenable p2) false false) 2 m4 [].
Proof.
  change (fast_settles_first p2 c2)
    with ([Call GetPending; Call Purge]
            ++ [Call GetPending; Complete p2 c2; RunMicrotask]).
  rewrite run_app, run_until_purged, run_cons.
  replace (step (Call GetPending)
             (mk_world (mk_cell f Undefined Undefined true false) 1 m2 []))
    with (mk_world (mk_cell f Undefined (Thenable p2) true true) 2 m3 [])
    by (cbn [step exec]; rewrite second_read_starts; reflexivity).
  rewrite run_cons. cbn [step]. rewrite second_completes.
  reflexivity.
Qed.

Lemma run_until_first_completes :
  run [Call GetPending; Complete p1 c1]
    (mk_world (mk_cell f (Thenable p2) (Thenable p2) false false) 2 m4 []) =
    mk_world (mk_cell f (Thenable p2) (Thenable p2) false false) 2 m5
      [(p1, Settle); (p1, Clear)].
Proof.
  rewrite run_cons.
  change (step (Call GetPending)
            (mk_world (mk_cell f (Thenable p2) (Thenable p2) false false)
               2 m4 []))
    with (mk_world (mk_cell f (Thenable p2) (Thenable p2) false false)
            2 m4 []).
  rewrite run_cons. cbn [step]. rewrite first_completes_late.
  reflexivity.
Qed.

Lemma run_slow_settles_late :
  run (slow_settles_late p1 c1)
    (mk_world (mk_cell f (Thenable p2) (Thenable p2) false false) 2 m4 []) =
    mk_world (mk_cell f Undefined Undefined true false) 2 m5 [].
Proof.
  change (slow_settles_late p1 c1)
    with ([Call GetPending; Complete p1 c1] ++ [RunMicrotask; RunMicrotask]).
  rewrite run_app, run_until_first_completes. reflexivity.
Qed.

(** C2. Invocation 1 starts with the first read, which returns its
    promise [p1]; [purge]; the second read starts invocation 2 and returns
    [p2].  [p2] completes first and is settled: the cell, empty until the
    job ran, is filled with [p2] as its settled value and watches nothing;
    the read [cacheOf2] returns [p2] again, completed with [c2], and changes
    nothing; the producer has been called twice.  Then [p1] completes: it queues its settle and the
    clear that [purge] attached; the settle is ignored, the clear empties
    the cell, erasing [p2].  The next read calls the producer a third time
    and returns [p3], not [p2]. *)
Theorem purge_after_slow_invocation :
  fst (getPending (init f)) = Ret (Thenable p1) /\
  fst (getPending (run [Call GetPending; Call Purge] (init f)))
    = Ret (Thenable p2) /\
  (isEmpty
     (kept (run [Call GetPending; Call Purge; Call GetPending; Complete p2 c2]
              (init f))) = true /\
   settledData (kept (run (fast_settles_first p2 c2) (init f)))
     = Thenable p2 /\
   isEmpty (kept (run (fast_settles_first p2 c2) (init f))) = false /\
   isPending (kept (run (fast_settles_first p2 c2) (init f))) = false) /\
  (getPending (run (fast_settles_first p2 c2) (init f)) =
     (Ret (Thenable p2), run (fast_settles_first p2 c2) (init f)) /\
   status (get_promise (run (fast_settles_first p2 c2) (init f)) p2)
     = Some c2 /\
   calls (run (fast_settles_first p2 c2) (init f)) = 2%nat) /\
  microtasks
    (run (fast_settles_first p2 c2 ++ [Call GetPending; Complete p1 c1])
       (init f))
    = [(p1, Settle); (p1, Clear)] /\
  kept (run (fast_settles_first p2 c2
               ++ [Call GetPending; Complete p1 c1; RunMicrotask])
          (init f))
    = kept (run (fast_settles_first p2 c2) (init f)) /\
  is_cleared
    (kept (run (fast_settles_first p2 c2 ++ slow_settles_late p1 c1)
             (init f))) /\
  fst (getPending
         (run (fast_settles_first p2 c2 ++ slow_settles_late p1 c1)
            (init f))) = Ret (Thenable p3) /\
  calls (snd (getPending
                (run (fast_settles_first p2 c2 ++ slow_settles_late p1 c1)
                   (init f)))) = 3%nat.
Proof.
  change [Call GetPending; Complete p1 c1; RunMicrotask]
    with ([Call GetPending; Complete p1 c1] ++ [RunMicrotask]).
  change [Call GetPending; Call Purge; Call GetPending; Complete p2 c2]
    with ([Call GetPending; Call Purge]
            ++ [Call GetPending; Complete p2 c2]).
  rewrite !run_app, run_until_purged, run_fast_settles_first,
    run_until_first_completes, run_slow_settles_late.
  split; [rewrite first_read_starts; reflexivity|].
  split; [rewrite second_read_starts; reflexivity|].
  split.
  { split; [|repeat split].
    rewrite run_cons.
    replace (step (Call GetPending)
               (mk_world (mk_cell f Undefined Undefined true false) 1 m2 []))
      with (mk_world (mk_cell f Undefined (Thenable p2) true true) 2 m3 [])
      by (cbn [step exec]; rewrite second_read_starts; reflexivity).
    rewrite run_cons. cbn [step]. rewrite second_completes. reflexivity. }
  split.
  { split; [reflexivity|]. split; [|reflexivity].
    erewrite get_promise_lookup by apply lookup_insert_eq. reflexivity. }
  split; [reflexivity|]. split; [reflexivity|].
  split; [repeat split|].
  rewrite (getPending_starts _ p3) by (try reflexivity; exact third_call).
  split; [reflexivity|].
  unfold promise_finally. destruct (status _); reflexivity.
Qed.

End SlowThenFast.

(** The test itself: the producer counts its invocations, promise 1 is
    fulfilled with 1 after promise 2 is fulfilled with 2; the reads are
    promises 1, 2, 2 and 3. *)
Lemma purge_after_slow_invocation_witness :
  fst (getPending (init expensive)) = Ret (Thenable 1%nat) /\
  fst (getPending (run [Call GetPending; Call Purge] (init expensive)))
    = Ret (Thenable 2%nat) /\
  (settledData (kept second_settled) = Thenable 2%nat /\
   isEmpty (kept second_settled) = false) /\
  getPending second_settled = (Ret (Thenable 2%nat), second_settled) /\
  is_cleared (kept first_settled_late) /\
  fst (getPending first_settled_late) = Ret (Thenable 3%nat).
Proof.
  assert (Hd : 1%nat <> 2%nat) by discriminate.
  pose proof (purge_after_slow_invocation expensive 1%nat 2%nat 3%nat
                (Fulfilled 1) (Fulfilled 2) eq_refl eq_refl eq_refl Hd)
    as (H1 & H2 & (_ & Hs & He & _) & (H2' & _) & _ & _ & Hclr & H3 & _).
  rewrite run_app in Hclr, H3.
  split; [exact H1|]. split; [exact H2|].
  split; [split; [exact Hs | exact He]|]. split; [exact H2'|].
  split; [exact Hclr | exact H3].
Defined.

(** Started with [refresh] instead of a read, the test goes through the
    same worlds. *)
Lemma purge_after_slow_invocation_by_refresh :
  run [Call Refresh; Call Purge; Call Refresh;
       Complete 2%nat (Fulfilled 2); RunMicrotask] (init expensive)
    = second_settled.
Proof. vm_compute. reflexivity. Qed.

(** * More of the class *)

(** ** Invariants of the event loop

    A property of the cell and its timers that [settle], [clear], [invoke]
    and the two timer methods keep is kept by every event. *)

Lemma promise_finally_timers p r w :
  timers (snd (promise_finally p r w)) = timers w.
Proof.
  unfold promise_finally. destruct (status (get_promise w p)); reflexivity.
Qed.

Lemma promise_finally_calls p r w :
  calls (snd (promise_finally p r w)) = calls w.
Proof.
  unfold promise_finally. destruct (status (get_promise w p)); reflexivity.
Qed.

Lemma complete_timers p c w : timers (complete p c w) = timers w.
Proof. unfold complete. destruct (status (get_promise w p)); reflexivity. Qed.

Section Invariant.

Variable P : world -> Prop.

Hypothesis P_frame :
  forall w w', kept w' = kept w -> timers w' = timers w -> P w -> P w'.
Hypothesis P_settle : preserves P settle.
Hypothesis P_clear : preserves P clear.
Hypothesis P_invoke : preserves P invoke.
Hypothesis P_stopFresh : preserves P stopFresh.
Hypothesis P_keepFresh : forall i, preserves P (keepFresh i).

Lemma invariant_promise_finally p r : preserves P (promise_finally p r).
Proof.
  intros w Hw. apply (P_frame w);
    [apply promise_finally_kept | apply promise_finally_timers | exact Hw].
Qed.

Lemma invariant_purge : preserves P purge.
Proof.
  unfold purge. apply preserves_bind; [apply preserves_this|]. intros v.
  apply preserves_bind; [|intros _; apply P_clear].
  destruct v;
    [apply preserves_ret | apply preserves_ret
     | apply invariant_promise_finally | apply preserves_throw].
Qed.

Lemma invariant_refresh : preserves P refresh.
Proof.
  unfold refresh. apply preserves_bind; [apply preserves_this|].
  intros [|]; [apply preserves_ret | apply P_invoke].
Qed.

Lemma invariant_getPending : preserves P getPending.
Proof.
  unfold getPending. apply preserves_bind; [apply preserves_this|].
  intros b. apply preserves_bind; [|intros _; apply preserves_this].
  destruct b; [apply invariant_refresh | apply preserves_ret].
Qed.

Lemma invariant_getSettled : preserves P getSettled.
Proof.
  unfold getSettled. apply preserves_bind; [apply preserves_this|].
  intros [|]; [|apply preserves_this].
  apply preserves_bind; [apply invariant_refresh|].
  intros _. apply preserves_this.
Qed.

Lemma invariant_getFresh : preserves P getFresh.
Proof.
  unfold getFresh. apply preserves_bind; [apply invariant_purge|].
  intros _. apply invariant_getPending.
Qed.

Lemma invariant_exec o : preserves P (exec o).
Proof.
  destruct o; simpl;
    try (apply preserves_bind; [|intros _; apply preserves_ret]);
    auto using invariant_getFresh, invariant_getPending,
      invariant_getSettled, preserves_getSettledOrThrowSync,
      invariant_refresh, invariant_purge.
Qed.

Lemma invariant_step e w : P w -> P (step e w).
Proof.
  intros Hw. destruct e as [o | p c | | t | ]; simpl.
  - apply invariant_exec, Hw.
  - apply (P_frame w);
      [apply complete_kept | apply complete_timers | exact Hw].
  - destruct (microtasks w) as [|[q r] js] eqn:E; [exact Hw|].
    assert (Hq : P (set_microtasks js w)) by (apply (P_frame w); auto).
    destruct r; [apply P_settle | apply P_clear]; exact Hq.
  - destruct (timers w !! t); [apply (P_frame w); auto | exact Hw].
  - destruct (ticks w) as [|n]; [exact Hw|].
    apply invariant_refresh. apply (P_frame w); auto.
Qed.

Lemma invariant_run es : forall w, P w -> P (run es w).
Proof.
  induction es as [|e es IH]; intros w Hw; simpl; [exact Hw|].
  apply IH, invariant_step, Hw.
Qed.

End Invariant.

(** What [invoke] leaves of the cell, by what the producer does. *)
Lemma invoke_kept (w : world) :
  kept (snd (invoke w)) =
    match fn (kept w) (calls w) with
    | Returns (Thenable p) =>
        set_pendingData (Thenable p) (set_isPending true (kept w))
    | Returns v => accepted (set_pendingData v (set_isPending true (kept w)))
    | Throws _ => set_isPending true (kept w)
    end.
Proof.
  destruct (fn (kept w) (calls w)) as [v | e] eqn:Hf.
  - destruct v as [| z | p | z].
    + rewrite (invoke_plain w Undefined Hf) by discriminate. reflexivity.
    + rewrite (invoke_plain w (Plain z) Hf) by discriminate. reflexivity.
    + rewrite (invoke_thenable w p Hf), promise_finally_kept. reflexivity.
    + rewrite (invoke_plain w (Uncallable z) Hf) by discriminate.
      reflexivity.
  - rewrite (invoke_throws w e Hf). reflexivity.
Qed.

Lemma invoke_timers (w : world) : timers (snd (invoke w)) = timers w.
Proof.
  destruct (fn (kept w) (calls w)) as [v | e] eqn:Hf.
  - destruct v as [| z | p | z].
    + rewrite (invoke_plain w Undefined Hf) by discriminate. reflexivity.
    + rewrite (invoke_plain w (Plain z) Hf) by discriminate. reflexivity.
    + rewrite (invoke_thenable w p Hf), promise_finally_timers. reflexivity.
    + rewrite (invoke_plain w (Uncallable z) Hf) by discriminate.
      reflexivity.
  - rewrite (invoke_throws w e Hf). reflexivity.
Qed.

Lemma stopFresh_eq (w : world) :
  stopFresh w =
    (Ret tt,
     match freshTimer (kept w) with
     | Some t =>
         set_kept (set_freshTimer None (kept w))
           (set_timers (delete t (timers w)) (next_timer w) w)
     | None => w
     end).
Proof.
  unfold stopFresh, bind, this. destruct (freshTimer (kept w)); reflexivity.
Qed.

(** ** The states of the cell *)

Lemma idle_states_run (es : list event) (w : world) :
  idle_states w -> idle_states (run es w).
Proof.
  apply invariant_run.
  - intros w1 w2 Hk _. unfold idle_states. rewrite Hk. auto.
  - intros w1 H1. destruct (isPending (kept w1)) eqn:Hp.
    + rewrite settle_accepted by assumption. intros _.
      split; [discriminate | reflexivity].
    + rewrite settle_suppressed by assumption. exact H1.
  - intros w1 _ _. split; [reflexivity | discriminate].
  - intros w1 _. unfold idle_states. rewrite invoke_kept.
    destruct (fn (kept w1) (calls w1)) as [[| z | p | z] | e]; simpl;
      try discriminate; intros _; split; (discriminate || reflexivity).
  - intros w1 H1. rewrite stopFresh_eq.
    destruct (freshTimer (kept w1)); exact H1.
  - intros i w1 H1. rewrite keepFresh_eq. exact H1.
Qed.

(** X1. The states "empty" and "fresh" of the class comment hold in every
    state the cell can reach.  With nothing watched, an empty cell holds no
    pending data, and a cell that is not empty holds as its settled data the
    very pending data, which [settle] left in place. *)
Theorem idle_cell_is_empty_or_fresh (f : nat -> fn_result) (w : world) :
  reachable f w ->
  isPending (kept w) = false ->
  (isEmpty (kept w) = true -> pendingData (kept w) = Undefined) /\
  (isEmpty (kept w) = false -> settledData (kept w) = pendingData (kept w)).
Proof.
  intros [es <-]. apply idle_states_run.
  intros _. split; [reflexivity | discriminate].
Qed.

(** A settled cell of the test producer, and the same cell after a purge
    and the late clear. *)
Lemma idle_cell_is_empty_or_fresh_witness :
  settledData (kept settled_once) = pendingData (kept settled_once) /\
  pendingData (kept first_settled_late) = Undefined.
Proof.
  pose proof (idle_cell_is_empty_or_fresh expensive settled_once
                (ex_intro _ [Call GetPending; Complete 1%nat (Fulfilled 1);
                             RunMicrotask] eq_refl) eq_refl) as (_ & Hfull).
  pose proof (idle_cell_is_empty_or_fresh expensive first_settled_late
                (ex_intro _ (fast_settles_first 2%nat (Fulfilled 2)
                               ++ slow_settles_late 1%nat (Fulfilled 1))
                   (run_app _ _ _)) eq_refl) as (Hempty & _).
  split; [exact (Hfull eq_refl) | exact (Hempty eq_refl)].
Defined.

(** ** The timer of the cell *)

Lemma owns_timers_run (es : list event) (w : world) :
  owns_timers w -> owns_timers (run es w).
Proof.
  apply invariant_run.
  - intros w1 w2 Hk Ht. unfold owns_timers. rewrite Hk, Ht. auto.
  - intros w1 H1. destruct (isPending (kept w1)) eqn:Hp.
    + rewrite settle_accepted by assumption. exact H1.
    + rewrite settle_suppressed by assumption. exact H1.
  - intros w1 H1. exact H1.
  - intros w1 H1. unfold owns_timers.
    rewrite invoke_kept, invoke_timers.
    destruct (fn (kept w1) (calls w1)) as [[| z | p | z] | e]; exact H1.
  - intros w1 H1. rewrite stopFresh_eq. unfold owns_timers in *.
    destruct (freshTimer (kept w1)) as [t|] eqn:Ht; simpl.
    + destruct H1 as [i ->]. apply delete_singleton_eq.
    + rewrite Ht. exact H1.
  - intros i w1 H1. rewrite keepFresh_eq. unfold owns_timers in *. simpl.
    exists i. destruct (freshTimer (kept w1)) as [t|].
    + destruct H1 as [i0 ->]. rewrite delete_singleton_eq.
      apply insert_empty.
    + rewrite H1. apply insert_empty.
Qed.

(** X2. The cell never has more than its own timer running.  In every
    state it can reach, no timer runs when [freshTimer] is not set, and when
    it is set that timer is the only one; so after [keepFresh] the one timer
    running is the new one with the interval given, however often
    [keepFresh] was called before, and after [stopFresh] none runs and no
    timer can queue a refresh. *)
Theorem cell_owns_its_timers (f : nat -> fn_result) (w : world) :
  reachable f w ->
  (freshTimer (kept w) = None -> timers w = ∅) /\
  (forall t, freshTimer (kept w) = Some t -> exists i, timers w = {[t := i]}) /\
  (forall i,
     freshTimer (kept (snd (keepFresh i w))) = Some (next_timer w) /\
     timers (snd (keepFresh i w)) = {[next_timer w := i]}) /\
  (timers (snd (stopFresh w)) = ∅ /\
   forall t, step (TimerFire t) (snd (stopFresh w)) = snd (stopFresh w)).
Proof.
  intros [es <-].
  assert (Ho : owns_timers (run es (init f)))
    by (apply owns_timers_run; reflexivity).
  set (w := run es (init f)) in *.
  assert (Hstop : timers (snd (stopFresh w)) = ∅).
  { rewrite stopFresh_eq. unfold owns_timers in Ho.
    destruct (freshTimer (kept w)) as [t|]; simpl;
      [destruct Ho as [i ->]; apply delete_singleton_eq | exact Ho]. }
  split; [|split; [|split; [|split]]].
  - intros Hn. unfold owns_timers in Ho. rewrite Hn in Ho. exact Ho.
  - intros t Ht. unfold owns_timers in Ho. rewrite Ht in Ho. exact Ho.
  - intros i. rewrite keepFresh_eq. simpl. split; [reflexivity|].
    unfold owns_timers in Ho. destruct (freshTimer (kept w)) as [t|].
    + destruct Ho as [i0 ->]. rewrite delete_singleton_eq.
      apply insert_empty.
    + rewrite Ho. apply insert_empty.
  - exact Hstop.
  - intros t. simpl. rewrite Hstop, lookup_empty. reflexivity.
Qed.

(** [keepFresh] a third time, and [stopFresh]: one timer, the last, and
    then none. *)
Lemma cell_owns_its_timers_witness :
  next_timer kept_fresh_twice = 2%nat /\
  timers (snd (keepFresh 30%float kept_fresh_twice))
    = {[next_timer kept_fresh_twice := 30%float]} /\
  timers (snd (stopFresh kept_fresh)) = ∅.
Proof.
  pose proof (cell_owns_its_timers expensive kept_fresh_twice
                (ex_intro _ [Call (KeepFresh 10%float);
                             Call (KeepFresh 20%float)] eq_refl))
    as (_ & _ & Hkeep & _).
  pose proof (cell_owns_its_timers expensive kept_fresh
                (ex_intro _ [Call (KeepFresh 10%float)] eq_refl))
    as (_ & _ & _ & Hstop & _).
  split; [reflexivity|].
  split; [exact (proj2 (Hkeep 30%float)) | exact Hstop].
Defined.

(** X3. [stopFresh] never throws and touches nothing but the timer: the
    data and flags of the cell, the promises, the jobs and the producer's
    call count stay.  Without a timer it changes nothing at all, and a
    second [stopFresh] changes nothing after the first. *)
Theorem stopFresh_only_stops_the_timer (w : world) :
  fst (stopFresh w) = Ret tt /\
  kept (snd (stopFresh w)) = set_freshTimer None (kept w) /\
  (promises (snd (stopFresh w)) = promises w /\
   microtasks (snd (stopFresh w)) = microtasks w /\
   ticks (snd (stopFresh w)) = ticks w /\
   calls (snd (stopFresh w)) = calls w) /\
  (freshTimer (kept w) = None -> stopFresh w = (Ret tt, w)) /\
  (forall t, freshTimer (kept w) = Some t ->
     timers (snd (stopFresh w)) !! t = None) /\
  stopFresh (snd (stopFresh w)) = (Ret tt, snd (stopFresh w)).
Proof.
  rewrite !stopFresh_eq.
  destruct w as [[f s p e a [t|]] n ps q k ts nx ws]; simpl.
  - split; [reflexivity|]. split; [reflexivity|].
    split; [repeat split|]. split; [discriminate|].
    split; [|reflexivity]. intros t' [= <-]. apply lookup_delete_eq.
  - split; [reflexivity|]. split; [reflexivity|].
    split; [repeat split|]. split; [reflexivity|].
    split; [|reflexivity]. intros t' Ht. discriminate Ht.
Qed.

Lemma stopFresh_only_stops_the_timer_witness :
  stopFresh (init expensive) = (Ret tt, init expensive) /\
  timers (snd (stopFresh kept_fresh)) !! 0%nat = None.
Proof.
  pose proof (stopFresh_only_stops_the_timer (init expensive))
    as (_ & _ & _ & Hnone & _).
  pose proof (stopFresh_only_stops_the_timer kept_fresh)
    as (_ & _ & _ & _ & Hsome & _).
  split; [exact (Hnone eq_refl) | exact (Hsome 0%nat eq_refl)].
Defined.

(** X4. A tick of the [keepFresh] timer does what [refresh()] does: when
    the running timer [t] fires and the callback it hands to
    [process.nextTick] runs, the world is as after a call of [refresh]. *)
Theorem timer_tick_is_a_refresh (w : world) (t : timer_id) (i : float) :
  timers w !! t = Some i ->
  ticks w = 0%nat ->
  run [TimerFire t; RunTick] w = step (Call Refresh) w.
Proof.
  intros Ht Hk. simpl. rewrite Ht. simpl. unfold bind.
  replace (set_ticks (ticks w) (set_ticks (S (ticks w)) w)) with w
    by (destruct w; reflexivity).
  destruct (refresh w) as [[[] | e] w']; reflexivity.
Qed.

(** The first tick of a cell that keeps itself fresh starts invocation
    1. *)
Lemma timer_tick_is_a_refresh_witness :
  pendingData (kept (run [TimerFire 0%nat; RunTick] kept_fresh))
    = Thenable 1%nat.
Proof.
  rewrite (timer_tick_is_a_refresh kept_fresh 0%nat 10%float
             eq_refl eq_refl).
  reflexivity.
Defined.

(** ** Reads of a filled cell *)

Lemma getPending_nonempty (w : world) :
  isEmpty (kept w) = false ->
  getPending w = (Ret (pendingData (kept w)), w).
Proof.
  intros He. unfold getPending, bind, this. rewrite He. reflexivity.
Qed.

Lemma read_step_nonempty (w : world) (e : event) :
  isEmpty (kept w) = false -> is_read e = true -> step e w = w.
Proof.
  intros He Hr. destruct e as [o | | | | ]; try discriminate Hr.
  destruct o; try discriminate Hr; simpl.
  - rewrite getPending_nonempty by assumption. reflexivity.
  - rewrite getSettled_nonempty by assumption. reflexivity.
  - rewrite getSettledOrThrowSync_nonempty by assumption. reflexivity.
Qed.

(** X5. Reads of a cell that is not empty are served from the cell: any
    number of [getPending], [getSettled] and [getSettledOrThrowSync] calls
    leaves the whole world as it was, so the producer is not called and no
    promise is touched.  When nothing is pending either, the three reads
    return the same value, the settled data. *)
Theorem reads_of_a_filled_cell_change_nothing
    (f : nat -> fn_result) (w : world) (es : list event) :
  reachable f w ->
  isEmpty (kept w) = false ->
  only_reads es = true ->
  run es w = w /\
  (isPending (kept w) = false ->
   getPending w = (Ret (settledData (kept w)), w) /\
   getSettled w = (Ret (settledData (kept w)), w) /\
   getSettledOrThrowSync w = (Ret (settledData (kept w)), w)).
Proof.
  intros [es0 <-] He Hes. split.
  - induction es as [|e es IH]; [reflexivity|].
    simpl in Hes. apply andb_prop in Hes as [Hr Hes].
    simpl. rewrite (read_step_nonempty _ e He Hr). exact (IH Hes).
  - intros Hp.
    assert (Hi : idle_states (run es0 (init f))).
    { apply idle_states_run. intros _. split; [reflexivity | discriminate]. }
    destruct (Hi Hp) as [_ Hfull].
    rewrite getPending_nonempty, getSettled_nonempty,
      getSettledOrThrowSync_nonempty by assumption.
    rewrite (Hfull He). auto.
Qed.

(** The settled cell of the test producer: five reads later the producer
    has still been called once, and all reads are promise 1. *)
Lemma reads_of_a_filled_cell_change_nothing_witness :
  run [Call GetPending; Call GetSettled; Call GetSettledOrThrowSync;
       Call GetPending; Call GetSettled] settled_once = settled_once /\
  getPending settled_once = (Ret (Thenable 1%nat), settled_once).
Proof.
  pose proof (reads_of_a_filled_cell_change_nothing expensive settled_once
                [Call GetPending; Call GetSettled; Call GetSettledOrThrowSync;
                 Call GetPending; Call GetSettled]
                (ex_intro _ [Call GetPending; Complete 1%nat (Fulfilled 1);
                             RunMicrotask] eq_refl)
                eq_refl eq_refl) as (Hrun & Hreads).
  split; [exact Hrun | exact (proj1 (Hreads eq_refl))].
Defined.

(** ** One refresh from start to end *)

Lemma refresh_idle (w : world) :
  isPending (kept w) = false -> refresh w = invoke w.
Proof. intros Hp. unfold refresh, bind, this. rewrite Hp. reflexivity. Qed.



(** ** [getFresh] *)

Lemma purge_calls (w : world) : calls (snd (purge w)) = calls w.
Proof.
  destruct (pendingData (kept w)) as [| z | p | z] eqn:Hd;
    [| | |rewrite (purge_throws w z Hd); reflexivity];
    rewrite purge_eq by (rewrite Hd; discriminate); rewrite Hd;
    try reflexivity.
  apply promise_finally_calls.
Qed.

(** [getFresh] fails where its [purge] fails: nothing is cleared and the
    producer is not asked. *)
Lemma getFresh_throws (w : world) (z : Z) :
  pendingData (kept w) = Uncallable z -> getFresh w = (Thrown TypeError, w).
Proof.
  intros Hd. unfold getFresh, bind. rewrite (purge_throws w z Hd).
  reflexivity.
Qed.

(** X7. [getFresh] asks the producer, once, whatever the cell held, as
    long as its [purge] returns, that is, unless [pendingData] has a
    [finally] that cannot be called: if the producer returns, [getFresh]
    returns that very value, which is then the pending data of the cell; if
    it throws, [getFresh] throws the same error and the settled data is gone
    all the same.  When the [finally] of [pendingData] cannot be called,
    [getFresh] throws a [TypeError] and changes nothing: the producer is not
    asked. *)
Theorem getFresh_calls_the_producer_once (w : world) :
  ((forall z, pendingData (kept w) <> Uncallable z) ->
   calls (snd (getFresh w)) = S (calls w) /\
   (forall v, fn (kept w) (calls w) = Returns v ->
      fst (getFresh w) = Ret v /\
      pendingData (kept (snd (getFresh w))) = v) /\
   (forall e, fn (kept w) (calls w) = Throws e ->
      fst (getFresh w) = Thrown e /\
      isEmpty (kept (snd (getFresh w))) = true /\
      settledData (kept (snd (getFresh w))) = Undefined)) /\
  (forall z, pendingData (kept w) = Uncallable z ->
     getFresh w = (Thrown TypeError, w)).
Proof.
  split; [|apply getFresh_throws]. intros Hcall.
  assert (Hget : getFresh w = (invoke ;; this pendingData) (snd (purge w))).
  { unfold getFresh. unfold bind at 1. rewrite purge_eq by exact Hcall.
    cbn [snd]. apply getPending_idle_empty; reflexivity. }
  assert (Hfn : fn (kept (snd (purge w))) (calls (snd (purge w)))
                = fn (kept w) (calls w)).
  { rewrite purge_calls, purge_eq by exact Hcall. reflexivity. }
  rewrite Hget. unfold bind, this.
  destruct (fn (kept w) (calls w)) as [v | e] eqn:Hf.
  - assert (Hc : calls (snd (invoke (snd (purge w)))) = S (calls w)
                 /\ fst (invoke (snd (purge w))) = Ret tt).
    { destruct v as [| z | p | z].
      + rewrite (invoke_plain _ Undefined Hfn) by discriminate.
        simpl. rewrite purge_calls. auto.
      + rewrite (invoke_plain _ (Plain z) Hfn) by discriminate.
        simpl. rewrite purge_calls. auto.
      + rewrite (invoke_thenable _ p Hfn).
        rewrite promise_finally_calls, promise_finally_ret.
        simpl. rewrite purge_calls. auto.
      + rewrite (invoke_plain _ (Uncallable z) Hfn) by discriminate.
        simpl. rewrite purge_calls. auto. }
    destruct Hc as [Hc Hr].
    pose proof (invoke_kept (snd (purge w))) as Hk. rewrite Hfn in Hk.
    destruct (invoke (snd (purge w))) as [o w']. simpl in *. subst o.
    split; [exact Hc|]. split; [|intros e He; discriminate He].
    intros v' [= <-]. cbn [fst snd]. rewrite Hk.
    destruct v; split; reflexivity.
  - rewrite (invoke_throws _ e Hfn). simpl. rewrite purge_calls.
    split; [reflexivity|]. split; [intros v Hv; discriminate Hv|].
    intros e' [= <-]. rewrite purge_eq by exact Hcall. auto.
Qed.

(** On the settled cell of the test producer [getFresh] returns the new
    promise 2; with a producer that throws on its second call it throws;
    and on a cell that holds [{finally: 5}] it fails before the producer is
    asked. *)
Lemma getFresh_calls_the_producer_once_witness :
  fst (getFresh settled_once) = Ret (Thenable 2%nat) /\
  fst (getFresh (run [Call GetPending; Complete 1%nat (Fulfilled 1);
                      RunMicrotask] (init throws_second)))
    = Thrown (Error "boom") /\
  getFresh settled_uncallable = (Thrown TypeError, settled_uncallable).
Proof.
  assert (H1 : forall z, pendingData (kept settled_once) <> Uncallable z)
    by discriminate.
  assert (H2 : forall z,
             pendingData
               (kept (run [Call GetPending; Complete 1%nat (Fulfilled 1);
                           RunMicrotask] (init throws_second)))
             <> Uncallable z) by discriminate.
  pose proof (getFresh_calls_the_producer_once settled_once)
    as (Hret & _).
  pose proof (getFresh_calls_the_producer_once
                (run [Call GetPending; Complete 1%nat (Fulfilled 1);
                      RunMicrotask] (init throws_second)))
    as (Hthrow & _).
  pose proof (getFresh_calls_the_producer_once settled_uncallable)
    as (_ & Hfail).
  destruct (Hret H1) as (_ & Hret' & _).
  destruct (Hthrow H2) as (_ & _ & Hthrow').
  split; [exact (proj1 (Hret' (Thenable 2%nat) eq_refl))|].
  split; [exact (proj1 (Hthrow' (Error "boom") eq_refl))|].
  exact (Hfail 5%Z eq_refl).
Defined.

(** ** A producer that throws *)

(** What [getFresh] gives its caller is what the producer does, when
    its [purge] returns. *)
Lemma getFresh_outcome (w0 : world) :
  (forall z, pendingData (kept w0) <> Uncallable z) ->
  fst (getFresh w0) =
    match fn (kept w0) (calls w0) with
    | Returns v => Ret v
    | Throws e' => Thrown e'
    end.
Proof.
  intros Hcall.
  unfold getFresh. unfold bind at 1. rewrite purge_eq by exact Hcall.
  cbn [snd]. rewrite getPending_idle_empty by reflexivity.
  unfold bind, this.
  set (w1 := set_kept (cleared (kept w0)) _).
  assert (Hfn : fn (kept w1) (calls w1) = fn (kept w0) (calls w0)).
  { unfold w1. fields. destruct (pendingData (kept w0));
      try reflexivity. rewrite promise_finally_calls. reflexivity. }
  destruct (fn (kept w0) (calls w0)) as [v | e'] eqn:Hf0.
  - destruct v as [| z | p | z];
      [| | |rewrite (invoke_plain w1 (Uncallable z) Hfn) by discriminate;
            reflexivity].
    + rewrite (invoke_plain w1 Undefined Hfn) by discriminate.
      reflexivity.
    + rewrite (invoke_plain w1 (Plain z) Hfn) by discriminate.
      reflexivity.
    + rewrite (invoke_thenable w1 p Hfn).
      pose proof (promise_finally_kept p Settle
        (set_kept (set_pendingData (Thenable p)
                     (set_isPending true (kept w1)))
           (set_calls (S (calls w1)) w1))) as Hk'.
      pose proof (promise_finally_ret p Settle
        (set_kept (set_pendingData (Thenable p)
                     (set_isPending true (kept w1)))
           (set_calls (S (calls w1)) w1))) as Hr'.
      destruct (promise_finally p Settle _) as [o w']. simpl in *.
      subst o. rewrite Hk'. reflexivity.
  - rewrite (invoke_throws w1 e' Hfn). reflexivity.
Qed.

(** X8. [invoke] sets [isPending] before it calls the producer and has no
    handler around the call.  So when the producer throws, [refresh] throws
    the same error to its caller and leaves the cell watching with nothing
    in flight: data, promises and jobs are as before, and from then on no
    [refresh], read or timer tick calls the producer again, until a purge or
    a promise job resets the flag; [getFresh] asks the producer again, when
    its [purge] returns. *)
Theorem producer_throw_leaves_cell_watching (w : world) (e : error) :
  isPending (kept w) = false ->
  fn (kept w) (calls w) = Throws e ->
  refresh w =
    (Thrown e,
     set_kept (set_isPending true (kept w)) (set_calls (S (calls w)) w)) /\
  (forall es, keeps_watching es = true ->
     calls (run es (snd (refresh w))) = S (calls w) /\
     isPending (kept (run es (snd (refresh w)))) = true) /\
  ((forall z, pendingData (kept w) <> Uncallable z) ->
   fst (getFresh (snd (refresh w))) =
     match fn (kept w) (S (calls w)) with
     | Returns v => Ret v
     | Throws e' => Thrown e'
     end).
Proof.
  intros Hp Hf.
  assert (Hr : refresh w =
            (Thrown e,
             set_kept (set_isPending true (kept w))
               (set_calls (S (calls w)) w))).
  { rewrite (refresh_idle w Hp). apply invoke_throws, Hf. }
  rewrite Hr. cbn [snd]. split; [reflexivity|]. split.
  - intros es Hes.
    destruct (watching_run es
                (set_kept (set_isPending true (kept w))
                   (set_calls (S (calls w)) w)) eq_refl Hes)
      as (Hp' & _ & Hc').
    split; [exact Hc' | exact Hp'].
  - intros Hcall. rewrite getFresh_outcome by exact Hcall. reflexivity.
Qed.

(** The producer throws on its second call: the [refresh] of the settled
    cell throws, later refreshes and reads call nothing, and [getFresh]
    gets the third call's promise. *)
Lemma producer_throw_leaves_cell_watching_witness :
  fst (refresh (run [Call GetPending; Complete 1%nat (Fulfilled 1);
                     RunMicrotask] (init throws_second)))
    = Thrown (Error "boom") /\
  calls (run [Call Refresh; Call Refresh; Call GetPending; Call GetSettled]
           (run [Call GetPending; Complete 1%nat (Fulfilled 1);
                 RunMicrotask] (init throws_second))) = 2%nat /\
  fst (getFresh
         (snd (refresh (run [Call GetPending; Complete 1%nat (Fulfilled 1);
                             RunMicrotask] (init throws_second)))))
    = Ret (Thenable 3%nat).
Proof.
  pose proof (producer_throw_leaves_cell_watching
                (run [Call GetPending; Complete 1%nat (Fulfilled 1);
                      RunMicrotask] (init throws_second))
                (Error "boom") eq_refl eq_refl) as (Hr & Hes & Hfresh).
  assert (Hcall : forall z,
             pendingData
               (kept (run [Call GetPending; Complete 1%nat (Fulfilled 1);
                           RunMicrotask] (init throws_second)))
             <> Uncallable z) by discriminate.
  split; [rewrite Hr; reflexivity|].
  split; [|exact (Hfresh Hcall)].
  exact (proj1 (Hes [Call Refresh; Call GetPending; Call GetSettled]
                  eq_refl)).
Defined.

(** ** The registry *)

Lemma keep_stores (f : kept_function) (r : registry) :
  storage (snd (keep f r)) !! fn_ref f = Some (fst (keep f r)).
Proof.
  unfold keep. destruct (storage r !! fn_ref f) as [c|] eqn:E; simpl.
  - exact E.
  - apply lookup_insert_eq.
Qed.

Lemma keep_ok (f : kept_function) (r : registry) :
  registry_ok r -> registry_ok (snd (keep f r)).
Proof.
  intros [Hlt Hinj]. unfold keep, registry_ok.
  destruct (storage r !! fn_ref f) as [c|] eqn:E;
    cbn [snd storage next_cell]; [split; assumption|].
  split.
  - intros k c Hk. destruct (decide (fn_ref f = k)) as [<- | Hne].
    + rewrite lookup_insert_eq in Hk. injection Hk as <-. lia.
    + rewrite lookup_insert_ne in Hk by exact Hne.
      specialize (Hlt k c Hk). lia.
  - intros k k' c Hk Hk'.
    destruct (decide (fn_ref f = k)) as [<- | Hne];
      destruct (decide (fn_ref f = k')) as [<- | Hne'];
      try reflexivity.
    + rewrite lookup_insert_eq in Hk. injection Hk as <-.
      rewrite lookup_insert_ne in Hk' by exact Hne'.
      specialize (Hlt k' _ Hk'). lia.
    + rewrite lookup_insert_eq in Hk'. injection Hk' as <-.
      rewrite lookup_insert_ne in Hk by exact Hne.
      specialize (Hlt k _ Hk). lia.
    + rewrite lookup_insert_ne in Hk by exact Hne.
      rewrite lookup_insert_ne in Hk' by exact Hne'.
      exact (Hinj k k' c Hk Hk').
Qed.

Lemma keep_all_ok (fs : list kept_function) :
  forall r, registry_ok r -> registry_ok (keep_all fs r).
Proof.
  induction fs as [|f fs IH]; intros r Hr; simpl; [exact Hr|].
  apply IH, keep_ok, Hr.
Qed.

Lemma empty_registry_ok : registry_ok empty_registry.
Proof.
  split.
  - intros k c Hk. simpl in Hk. rewrite lookup_empty in Hk. discriminate Hk.
  - intros k k' c Hk. simpl in Hk. rewrite lookup_empty in Hk.
    discriminate Hk.
Qed.

(** X9. Wrapping a function a second time returns the cell of the first
    time and changes nothing: no cell is made, the stored cell is not
    replaced or reset.  Only the identity of the function counts.  The first
    wrapping of a function gives a new, empty cell around it. *)
Theorem keep_returns_the_same_cell (f : kept_function) (r : registry) :
  keep f (snd (keep f r)) = (fst (keep f r), snd (keep f r)) /\
  (forall g, fn_ref g = fn_ref f ->
     keep g (snd (keep f r)) = (fst (keep f r), snd (keep f r))) /\
  (storage r !! fn_ref f = None ->
     cells (snd (keep f r)) !! fst (keep f r)
       = Some (new_PromiseKeeper (fn_body f)) /\
     fst (keep f r) = next_cell r).
Proof.
  assert (Hsame : forall g, fn_ref g = fn_ref f ->
            keep g (snd (keep f r)) = (fst (keep f r), snd (keep f r))).
  { intros g Hg. unfold keep at 1. rewrite Hg, keep_stores. reflexivity. }
  split; [apply Hsame; reflexivity|]. split; [exact Hsame|].
  intros Hnew. unfold keep. rewrite Hnew. simpl.
  split; [apply lookup_insert_eq | reflexivity].
Qed.

Lemma keep_returns_the_same_cell_witness :
  fst (keep {| fn_ref := 5; fn_body := expensive |} empty_registry) = 0%nat /\
  fst (keep {| fn_ref := 5; fn_body := expensive |}
         (snd (keep {| fn_ref := 5; fn_body := expensive |} empty_registry)))
    = 0%nat.
Proof.
  pose proof (keep_returns_the_same_cell
                {| fn_ref := 5; fn_body := expensive |} empty_registry)
    as (Hagain & _ & Hnew).
  split; [exact (proj2 (Hnew eq_refl))|].
  rewrite Hagain. exact (proj2 (Hnew eq_refl)).
Defined.

(** X10. Two functions never share a cell.  In a registry built by
    wrapping, wrapping [g] after [f], when they are not the same function,
    gives a cell other than that of [f], leaves the cell of [f] as it is,
    and [f] still gets its own cell afterwards. *)
Theorem keep_separates_functions
    (fs : list kept_function) (f g : kept_function) :
  fn_ref f <> fn_ref g ->
  fst (keep g (snd (keep f (keep_all fs empty_registry))))
    <> fst (keep f (keep_all fs empty_registry)) /\
  cells (snd (keep g (snd (keep f (keep_all fs empty_registry)))))
    !! fst (keep f (keep_all fs empty_registry))
    = cells (snd (keep f (keep_all fs empty_registry)))
        !! fst (keep f (keep_all fs empty_registry)) /\
  fst (keep f (snd (keep g (snd (keep f (keep_all fs empty_registry))))))
    = fst (keep f (keep_all fs empty_registry)).
Proof.
  intros Hne.
  set (r := keep_all fs empty_registry).
  assert (Hok : registry_ok (snd (keep f r)))
    by (apply keep_ok, keep_all_ok, empty_registry_ok).
  pose proof (keep_stores f r) as Hf.
  set (r1 := snd (keep f r)) in *. set (cf := fst (keep f r)) in *.
  destruct Hok as [Hlt Hinj].
  destruct (storage r1 !! fn_ref g) as [cg|] eqn:Hg.
  - assert (Hkg : keep g r1 = (cg, r1))
      by (unfold keep; rewrite Hg; reflexivity).
    rewrite Hkg. cbn [fst snd].
    split; [|split; [reflexivity|]].
    + intros ->. apply Hne. exact (Hinj _ _ _ Hf Hg).
    + unfold keep. rewrite Hf. reflexivity.
  - assert (Hkg : keep g r1 =
              (next_cell r1,
               {| storage := <[fn_ref g := next_cell r1]> (storage r1);
                  cells := <[next_cell r1 := new_PromiseKeeper (fn_body g)]>
                             (cells r1);
                  next_cell := S (next_cell r1) |}))
      by (unfold keep; rewrite Hg; reflexivity).
    rewrite Hkg. cbn [fst snd cells].
    specialize (Hlt _ _ Hf).
    split; [lia|]. split; [apply lookup_insert_ne; lia|].
    unfold keep. cbn [storage].
    rewrite lookup_insert_ne by (intros E; apply Hne; symmetry; exact E).
    rewrite Hf. reflexivity.
Qed.

Lemma keep_separates_functions_witness :
  fst (keep {| fn_ref := 8; fn_body := immediate |}
         (snd (keep {| fn_ref := 5; fn_body := expensive |} empty_registry)))
    <> fst (keep {| fn_ref := 5; fn_body := expensive |} empty_registry) /\
  fst (keep {| fn_ref := 5; fn_body := expensive |}
         (snd (keep {| fn_ref := 8; fn_body := immediate |}
                 (snd (keep {| fn_ref := 5; fn_body := expensive |}
                         empty_registry))))) = 0%nat.
Proof.
  assert (Hne : fn_ref {| fn_ref := 5; fn_body := expensive |}
                <> fn_ref {| fn_ref := 8; fn_body := immediate |})
    by discriminate.
  pose proof (keep_separates_functions []
                {| fn_ref := 5; fn_body := expensive |}
                {| fn_ref := 8; fn_body := immediate |} Hne)
    as (Hother & _ & Hback).
  split; [exact Hother | exact Hback].
Defined.

(** ** The interval check of the first version *)



(** ** The settle of the watched invocation *)

Lemma settle_is_due_idle (w : world) :
  isPending (kept w) = false -> settle_is_due w.
Proof. intros Hp Hp'. rewrite Hp in Hp'. discriminate Hp'. Qed.

Lemma settle_is_due_frame (w w' : world) :
  isPending (kept w') = isPending (kept w) ->
  pendingData (kept w') = pendingData (kept w) ->
  promises w' = promises w ->
  microtasks w' = microtasks w ->
  settle_is_due w -> settle_is_due w'.
Proof.
  unfold settle_is_due, get_promise. intros -> -> -> ->. auto.
Qed.

Lemma settle_not_pending (w : world) :
  isPending (kept (snd (settle w))) = false.
Proof.
  destruct (isPending (kept w)) eqn:Hp.
  - rewrite settle_accepted by assumption. reflexivity.
  - rewrite settle_suppressed by assumption. exact Hp.
Qed.

Lemma purge_not_pending (w : world) :
  (forall z, pendingData (kept w) <> Uncallable z) ->
  isPending (kept (snd (purge w))) = false.
Proof. intros Hcall. rewrite purge_eq by exact Hcall. reflexivity. Qed.

(** A value of the cell has a [finally] that cannot be called, or not. *)
Lemma uncallable_or_not (v : value) :
  (exists z, v = Uncallable z) \/ (forall z, v <> Uncallable z).
Proof. destruct v; [right | right | right | left; eauto]; discriminate. Qed.

(** [invoke] leaves the settle of the promise it got registered or
    queued, when the producer does not throw. *)
Lemma invoke_settle_is_due (w : world) :
  (forall e, fn (kept w) (calls w) <> Throws e) ->
  settle_is_due (snd (invoke w)).
Proof.
  intros Hno. destruct (fn (kept w) (calls w)) as [v | e] eqn:Hf;
    [|destruct (Hno e eq_refl)].
  destruct v as [| z | p | z];
    [| | |rewrite (invoke_plain w (Uncallable z) Hf) by discriminate;
          apply settle_is_due_idle; reflexivity].
  - rewrite (invoke_plain w Undefined Hf) by discriminate.
    apply settle_is_due_idle. reflexivity.
  - rewrite (invoke_plain w (Plain z) Hf) by discriminate.
    apply settle_is_due_idle. reflexivity.
  - rewrite (invoke_thenable w p Hf). intros _.
    set (w1 := set_kept _ _).
    exists p. destruct (status (get_promise w1 p)) as [c|] eqn:Hs.
    + rewrite (promise_finally_completed p Settle c w1 Hs).
      split; [reflexivity|]. right. cbn [snd microtasks set_microtasks].
      apply in_or_app. right. left. reflexivity.
    + rewrite (promise_finally_pending p Settle w1 Hs).
      split; [reflexivity|]. left. cbn [snd].
      erewrite get_promise_lookup by apply lookup_insert_eq.
      split; [reflexivity|]. cbn [reactions].
      apply in_or_app. right. left. reflexivity.
Qed.

(** The world after [refresh] is the world before or the world after
    [invoke]. *)
Lemma refresh_world (w : world) :
  snd (refresh w) = w \/ snd (refresh w) = snd (invoke w).
Proof.
  unfold refresh, bind, this. destruct (isPending (kept w)); auto.
Qed.

Lemma then_read_world {A} (m : M unit) (g : PromiseKeeper -> A) (w : world) :
  snd ((m ;; this g) w) = snd (m w).
Proof. unfold bind, this. destruct (m w) as [[[] | e] w']; reflexivity. Qed.

Lemma getPending_world (w : world) :
  snd (getPending w) = w \/ snd (getPending w) = snd (invoke w).
Proof.
  assert (H : snd (getPending w)
              = if isEmpty (kept w) then snd (refresh w) else w).
  { unfold getPending, bind, this.
    destruct (isEmpty (kept w)); [|reflexivity].
    destruct (refresh w) as [[[] | e] w']; reflexivity. }
  rewrite H. destruct (isEmpty (kept w));
    [apply refresh_world | left; reflexivity].
Qed.

Lemma getSettled_world (w : world) :
  snd (getSettled w) = w \/ snd (getSettled w) = snd (invoke w).
Proof.
  assert (H : snd (getSettled w)
              = if isEmpty (kept w) then snd (refresh w) else w).
  { unfold getSettled, bind, this.
    destruct (isEmpty (kept w)); [|reflexivity].
    destruct (refresh w) as [[[] | e] w']; reflexivity. }
  rewrite H. destruct (isEmpty (kept w));
    [apply refresh_world | left; reflexivity].
Qed.

Section SettleIsDue.

Variable f : nat -> fn_result.
Hypothesis f_returns : forall n e, f n <> Throws e.

Lemma fn_run (es : list event) (w : world) :
  fn (kept w) = f -> fn (kept (run es w)) = f.
Proof.
  apply (preserves_run (fun w => fn (kept w) = f)).
  - intros w1 w2 ->. auto.
  - intros w1 H1. destruct (isPending (kept w1)) eqn:Hp.
    + rewrite settle_accepted by assumption. exact H1.
    + rewrite settle_suppressed by assumption. exact H1.
  - intros w1 H1. exact H1.
  - intros b w1 H1. exact H1.
  - intros v w1 H1. exact H1.
  - intros t w1 H1. exact H1.
Qed.

Lemma world_choice_is_due (w w' : world) :
  fn (kept w) = f -> settle_is_due w ->
  w' = w \/ w' = snd (invoke w) -> settle_is_due w'.
Proof.
  intros Hf Hw [-> | ->]; [exact Hw|].
  apply invoke_settle_is_due. intros e. rewrite Hf. apply f_returns.
Qed.

Lemma settle_is_due_step (e : event) (w : world) :
  fn (kept w) = f -> settle_is_due w -> settle_is_due (step e w).
Proof.
  intros Hf Hw. destruct e as [o | q c | | t | ]; cbn [step].
  - destruct o; cbn [exec].
    + destruct (uncallable_or_not (pendingData (kept w))) as [[z Hd] | Hcall];
        [rewrite (getFresh_throws w z Hd); exact Hw|].
      unfold getFresh. unfold bind at 1. rewrite purge_eq by exact Hcall.
      cbn [snd]. rewrite getPending_idle_empty by reflexivity.
      rewrite then_read_world. apply invoke_settle_is_due.
      intros e. cbn [kept set_kept cleared fn set_isPending set_isEmpty
                     set_pendingData set_settledData].
      rewrite Hf. apply f_returns.
    + apply (world_choice_is_due w _ Hf Hw), getPending_world.
    + apply (world_choice_is_due w _ Hf Hw), getSettled_world.
    + unfold getSettledOrThrowSync, bind, this, throw.
      destruct (isEmpty (kept w)); exact Hw.
    + apply (world_choice_is_due w _ Hf Hw).
      unfold bind. destruct (refresh_world w) as [H | H];
        destruct (refresh w) as [[[] | e] w']; auto.
    + destruct (uncallable_or_not (pendingData (kept w))) as [[z Hd] | Hcall];
        [unfold bind; rewrite (purge_throws w z Hd); exact Hw|].
      apply settle_is_due_idle. unfold bind.
      pose proof (purge_not_pending w Hcall) as H.
      destruct (purge w) as [[[] | e] w']; exact H.
    + unfold bind. rewrite keepFresh_eq.
      apply (settle_is_due_frame w); auto.
    + unfold bind. rewrite stopFresh_eq.
      destruct (freshTimer (kept w));
        [apply (settle_is_due_frame w); auto | exact Hw].
  - unfold complete. destruct (status (get_promise w q)) as [c0|] eqn:Hs;
      [exact Hw|].
    intros Hp. destruct (Hw Hp) as (p & Hd & Hdue). exists p.
    split; [exact Hd|]. cbn [microtasks set_microtasks set_promises].
    destruct (decide (q = p)) as [-> | Hne].
    + right. destruct Hdue as [[_ Hin] | Hin];
        apply in_or_app; [right | left; exact Hin].
      apply in_map. exact Hin.
    + destruct Hdue as [Hreg | Hin];
        [left | right; apply in_or_app; left; exact Hin].
      unfold get_promise in *. fields.
      rewrite lookup_insert_ne by exact Hne. exact Hreg.
  - destruct (microtasks w) as [|[q r] js]; [exact Hw|].
    apply settle_is_due_idle. destruct r; [apply settle_not_pending|].
    reflexivity.
  - destruct (timers w !! t); [|exact Hw].
    apply (settle_is_due_frame w); auto.
  - destruct (ticks w) as [|n]; [exact Hw|].
    apply (world_choice_is_due (set_ticks n w)); [exact Hf | |].
    + apply (settle_is_due_frame w); auto.
    + apply refresh_world.
Qed.

Lemma settle_is_due_run (es : list event) :
  forall w, fn (kept w) = f -> settle_is_due w -> settle_is_due (run es w).
Proof.
  induction es as [|e es IH]; intros w Hf Hw; [exact Hw|].
  rewrite run_cons. apply IH.
  - exact (fn_run [e] w Hf).
  - apply settle_is_due_step; assumption.
Qed.

End SettleIsDue.

(** X12. With a producer that never throws the cell cannot be left
    watching for nothing: in every state it can reach, when [isPending] is
    true the pending data is a promise whose [settle] is either registered
    on it, the promise being still pending, or already waiting in the job
    queue. *)
Theorem watched_promise_will_settle (f : nat -> fn_result) (w : world) :
  (forall n e, f n <> Throws e) ->
  reachable f w ->
  isPending (kept w) = true ->
  exists p,
    pendingData (kept w) = Thenable p /\
    ((status (get_promise w p) = None /\
      In Settle (reactions (get_promise w p))) \/
     In (p, Settle) (microtasks w)).
Proof.
  intros Hno [es <-]. apply (settle_is_due_run f Hno); [reflexivity|].
  apply settle_is_due_idle. reflexivity.
Qed.

(** Invocation 2 of the test producer is watched while the purged promise
    1 completes: its settle is registered on promise 2. *)
Lemma watched_promise_will_settle_witness :
  exists p,
    pendingData (kept purged_completes_first) = Thenable p /\
    ((status (get_promise purged_completes_first p) = None /\
      In Settle (reactions (get_promise purged_completes_first p))) \/
     In (p, Settle) (microtasks purged_completes_first)).
Proof.
  assert (Hno : forall n e, expensive n <> Throws e) by discriminate.
  exact (watched_promise_will_settle expensive purged_completes_first Hno
           (ex_intro _ [Call GetPending; Call Purge; Call GetPending;
                        Complete 1%nat (Fulfilled 1)] eq_refl)
           eq_refl).
Defined.

(** ** [getFresh] while an invocation is in flight *)

(** [getFresh] on a cell that watches the pending promise [p1], when the
    producer answers with the new promise [p2]. *)
Lemma getFresh_in_flight_eq (w : world) (p1 p2 : promise_id) :
  pendingData (kept w) = Thenable p1 ->
  status (get_promise w p1) = None ->
  fn (kept w) (calls w) = Returns (Thenable p2) ->
  p1 <> p2 ->
  status (get_promise w p2) = None ->
  getFresh w =
    (Ret (Thenable p2),
     set_promises
       (<[p2 := {| status := None;
                   reactions := reactions (get_promise w p2) ++ [Settle] |}]>
          (<[p1 := {| status := None;
                      reactions := reactions (get_promise w p1) ++ [Clear] |}]>
             (promises w)))
       (set_kept
          (set_pendingData (Thenable p2)
             (set_isPending true (cleared (kept w))))
          (set_calls (S (calls w)) w))).
Proof.
  intros Hd H1 Hf Hne H2. unfold getFresh. unfold bind at 1.
  rewrite purge_eq by (rewrite Hd; discriminate).
  rewrite Hd, (promise_finally_pending p1 Clear w H1). fields.
  rewrite getPending_idle_empty by reflexivity.
  unfold bind. rewrite (invoke_thenable _ p2) by exact Hf.
  assert (Hsame : forall w', promises w' =
                    <[p1 := {| status := None;
                               reactions := reactions (get_promise w p1)
                                              ++ [Clear] |}]> (promises w) ->
                  get_promise w' p2 = get_promise w p2).
  { intros w' Hw'. unfold get_promise. rewrite Hw'.
    rewrite lookup_insert_ne by exact Hne. reflexivity. }
  rewrite promise_finally_pending by (rewrite Hsame; [exact H2 | reflexivity]).
  rewrite Hsame by reflexivity. reflexivity.
Qed.

(** The events on a world whose promise and job queue are known. *)
Lemma complete_at (w : world) (p : promise_id) (c : completion)
    (pr : promise) :
  promises w !! p = Some pr ->
  status pr = None ->
  complete p c w =
    set_microtasks (microtasks w ++ map (pair p) (reactions pr))
      (set_promises
         (<[p := {| status := Some c; reactions := [] |}]> (promises w)) w).
Proof.
  intros Hl Hs. unfold complete.
  rewrite (get_promise_lookup w p pr Hl), Hs. reflexivity.
Qed.

Lemma job_settle_accepted (w : world) (q : promise_id)
    (js : list (promise_id * reaction)) :
  microtasks w = (q, Settle) :: js ->
  isPending (kept w) = true ->
  step RunMicrotask w = set_kept (accepted (kept w)) (set_microtasks js w).
Proof.
  intros Hm Hp. cbn [step]. rewrite Hm. cbn [run_reaction].
  rewrite settle_accepted by exact Hp. reflexivity.
Qed.

Lemma job_settle_suppressed (w : world) (q : promise_id)
    (js : list (promise_id * reaction)) :
  microtasks w = (q, Settle) :: js ->
  isPending (kept w) = false ->
  step RunMicrotask w = set_microtasks js w.
Proof.
  intros Hm Hp. cbn [step]. rewrite Hm. cbn [run_reaction].
  rewrite settle_suppressed by exact Hp. reflexivity.
Qed.

Lemma job_clear (w : world) (q : promise_id)
    (js : list (promise_id * reaction)) :
  microtasks w = (q, Clear) :: js ->
  step RunMicrotask w = set_kept (cleared (kept w)) (set_microtasks js w).
Proof. intros Hm. cbn [step]. rewrite Hm. reflexivity. Qed.

(** X13. The race that the comment in [purge] describes, in both orders.
    The cell watches the pending promise [p1]; [getFresh] purges it and
    starts a new invocation with promise [p2].  If [p2] completes first it
    is settled, and erased again when [p1] completes.  If [p1] completes
    first its clear ends the watch, and the later settle of [p2] is
    ignored.  Either way the cell ends empty with nothing watched: what
    [getFresh] fetched is not kept. *)
Theorem getFresh_in_flight_keeps_nothing
    (w : world) (p1 p2 : promise_id) (c1 c2 : completion) :
  pendingData (kept w) = Thenable p1 ->
  status (get_promise w p1) = None ->
  reactions (get_promise w p1) = [Settle] ->
  microtasks w = [] ->
  fn (kept w) (calls w) = Returns (Thenable p2) ->
  p1 <> p2 ->
  status (get_promise w p2) = None ->
  reactions (get_promise w p2) = [] ->
  fst (getFresh w) = Ret (Thenable p2) /\
  settledData
    (kept (run [Call GetFresh; Complete p2 c2; RunMicrotask] w))
    = Thenable p2 /\
  (is_cleared
     (kept (run [Call GetFresh; Complete p2 c2; RunMicrotask;
                 Complete p1 c1; RunMicrotask; RunMicrotask] w)) /\
   microtasks (run [Call GetFresh; Complete p2 c2; RunMicrotask;
                    Complete p1 c1; RunMicrotask; RunMicrotask] w) = []) /\
  (is_cleared
     (kept (run [Call GetFresh; Complete p1 c1; RunMicrotask; RunMicrotask;
                 Complete p2 c2; RunMicrotask] w)) /\
   microtasks (run [Call GetFresh; Complete p1 c1; RunMicrotask; RunMicrotask;
                    Complete p2 c2; RunMicrotask] w) = []).
Proof.
  intros Hd H1 R1 Hm Hf Hne H2 R2.
  assert (Hne' : p2 <> p1) by (intros E; apply Hne; symmetry; exact E).
  pose proof (getFresh_in_flight_eq w p1 p2 Hd H1 Hf Hne H2) as Hfresh.
  rewrite R1, R2 in Hfresh. cbn [app] in Hfresh.
  split; [rewrite Hfresh; reflexivity|].
  rewrite !(run_cons (Call GetFresh)). cbn [step exec].
  rewrite Hfresh. cbn [snd].
  split; [|split].
  - rewrite run_cons; cbn [step]; rewrite (complete_at _ p2 c2
                         {| status := None; reactions := [Settle] |});
      [|apply lookup_insert_eq | reflexivity].
    fields. rewrite Hm. cbn [app map reactions].
    rewrite run_cons, (job_settle_accepted _ p2 []) by reflexivity.
    reflexivity.
  - rewrite run_cons; cbn [step]; rewrite (complete_at _ p2 c2
                         {| status := None; reactions := [Settle] |});
      [|apply lookup_insert_eq | reflexivity].
    fields. rewrite Hm. cbn [app map reactions].
    rewrite run_cons, (job_settle_accepted _ p2 []) by reflexivity.
    fields.
    rewrite run_cons; cbn [step]; rewrite (complete_at _ p1 c1
                         {| status := None; reactions := [Settle; Clear] |});
      [|fields; rewrite !lookup_insert_ne by exact Hne';
        apply lookup_insert_eq | reflexivity].
    fields. cbn [app map reactions].
    rewrite run_cons, (job_settle_suppressed _ p1 [(p1, Clear)])
      by reflexivity.
    fields.
    rewrite run_cons, (job_clear _ p1 []) by reflexivity.
    fields. cbn [run]. repeat split.
  - rewrite run_cons; cbn [step]; rewrite (complete_at _ p1 c1
                         {| status := None; reactions := [Settle; Clear] |});
      [|fields; rewrite lookup_insert_ne by exact Hne';
        apply lookup_insert_eq | reflexivity].
    fields. rewrite Hm. cbn [app map reactions].
    rewrite run_cons, (job_settle_accepted _ p1 [(p1, Clear)])
      by reflexivity.
    fields.
    rewrite run_cons, (job_clear _ p1 []) by reflexivity.
    fields.
    rewrite run_cons; cbn [step]; rewrite (complete_at _ p2 c2
                         {| status := None; reactions := [Settle] |});
      [|fields; rewrite lookup_insert_ne by exact Hne;
        apply lookup_insert_eq | reflexivity].
    fields. cbn [app map reactions].
    rewrite run_cons, (job_settle_suppressed _ p2 []) by reflexivity.
    fields. cbn [run]. repeat split.
Qed.

(** The test producer with invocation 1 in flight: [getFresh] returns
    promise 2, and in both orders of completion the cell ends with nothing
    cached. *)
Lemma getFresh_in_flight_keeps_nothing_witness :
  fst (getFresh pending_once) = Ret (Thenable 2%nat) /\
  is_cleared
    (kept (run [Call GetFresh; Complete 2%nat (Fulfilled 2); RunMicrotask;
                Complete 1%nat (Fulfilled 1); RunMicrotask; RunMicrotask]
             pending_once)) /\
  is_cleared
    (kept (run [Call GetFresh; Complete 1%nat (Fulfilled 1); RunMicrotask;
                RunMicrotask; Complete 2%nat (Fulfilled 2); RunMicrotask]
             pending_once)).
Proof.
  assert (Hne : 1%nat <> 2%nat) by discriminate.
  pose proof (getFresh_in_flight_keeps_nothing pending_once 1%nat 2%nat
                (Fulfilled 1) (Fulfilled 2)
                eq_refl eq_refl eq_refl eq_refl eq_refl Hne eq_refl eq_refl)
    as (Hret & _ & (Ha & _) & (Hb & _)).
  split; [exact Hret|]. split; [exact Ha | exact Hb].
Defined.
